(** * GigEConfig and EnumerationEvents: a shallow embedding

    The development follows the two example programs of the Spinnaker
    tree, [GigEConfig.cpp] and [EnumerationEvents.cpp].  Integers of the
    C++ code are values of [Z] with the conversions written out, C strings
    are [string]s, the output stream is a list of events and the calls
    made into the camera library are kept in a log. *)

From Stdlib Require Import ZArith List Bool Lia Ascii String.
From Stdlib Require Import DecimalString HexadecimalString.
From Stdlib Require DecimalPos DecimalN.
Import ListNotations.

#[local] Open Scope string_scope.
#[local] Open Scope Z_scope.

(** ** Address formatting ([GigEConfig.cpp], lines 63 to 110) *)

Module Format.

(** [static_cast<unsigned int>(value)] on an [int64_t]. *)
Definition to_uint32 (value : Z) : Z := value mod 2 ^ 32.

(** [ostream << n] for a non-negative integer in the default (decimal)
    base. *)
Definition put_dec (n : Z) : string :=
  DecimalString.NilZero.string_of_uint (N.to_uint (Z.to_N n)).

Definition toupper (c : ascii) : ascii :=
  let n := nat_of_ascii c in
  if (andb (Nat.leb 97 n) (Nat.leb n 122)) then ascii_of_nat (n - 32) else c.

Fixpoint map_string (f : ascii -> ascii) (s : string) : string :=
  match s with
  | EmptyString => EmptyString
  | String c r => String (f c) (map_string f r)
  end.

Fixpoint fill (n : nat) (c : ascii) : string :=
  match n with
  | O => EmptyString
  | S k => String c (fill k c)
  end.

(** [std::setfill(c) << std::setw(w)] applied to the next field: the text
    is padded on the left up to the width, never cut. *)
Definition setw_setfill (w : nat) (c : ascii) (s : string) : string :=
  fill (w - String.length s) c ++ s.

(** [ostream << std::uppercase << std::hex << n] for a non-negative [n]. *)
Definition put_hex_upper (n : Z) : string :=
  map_string toupper
    (HexadecimalString.NilZero.string_of_uint (N.to_hex_uint (Z.to_N n))).

(** The field written by
    [<< std::uppercase << std::setfill('0') << std::setw(2) << std::hex << n]. *)
Definition put_hex2 (n : Z) : string :=
  setw_setfill 2 "0"%char (put_hex_upper n).

Definition GetDottedAddress (value : Z) : string :=
  let inputValue := to_uint32 value in
  put_dec (Z.shiftr (Z.land inputValue 0xFF000000) 24) ++ "." ++
  put_dec (Z.shiftr (Z.land inputValue 0x00FF0000) 16) ++ "." ++
  put_dec (Z.shiftr (Z.land inputValue 0x0000FF00) 8) ++ "." ++
  put_dec (Z.land inputValue 0x000000FF).

(** [GetMACAddress(int64_t)]; the cast to [long long] keeps the value. *)
Definition GetMACAddress (value : Z) : string :=
  let inputValue := value in
  put_hex2 (Z.shiftr (Z.land inputValue 0xFF0000000000) 40) ++ ":" ++
  put_hex2 (Z.shiftr (Z.land inputValue 0x00FF00000000) 32) ++ ":" ++
  put_hex2 (Z.shiftr (Z.land inputValue 0x0000FF000000) 24) ++ ":" ++
  put_hex2 (Z.shiftr (Z.land inputValue 0x000000FF0000) 16) ++ ":" ++
  put_hex2 (Z.shiftr (Z.land inputValue 0x00000000FF00) 8) ++ ":" ++
  put_hex2 (Z.land inputValue 0x0000000000FF).

(** [std::replace(first, last, old, new)] over the characters of a
    string. *)
Fixpoint replace (old new : ascii) (s : string) : string :=
  match s with
  | EmptyString => EmptyString
  | String c r =>
      String (if Ascii.eqb c old then new else c) (replace old new r)
  end.

(** [GetMACAddress(const char* )]. *)
Definition GetMACAddressStr (macAddrString : string) : string :=
  let macAddress := macAddrString in
  replace "-"%char ":"%char macAddress.

(** *** Bytes and digits, to state what the functions return *)

(** One byte of [v], counted from bit [k]. *)
Definition byte_at (v : Z) (k : Z) : Z := Z.land (Z.shiftr v k) 0xFF.

Definition hex_digit_upper (d : Z) : ascii :=
  match d with
  | 0 => "0" | 1 => "1" | 2 => "2" | 3 => "3" | 4 => "4" | 5 => "5"
  | 6 => "6" | 7 => "7" | 8 => "8" | 9 => "9" | 10 => "A" | 11 => "B"
  | 12 => "C" | 13 => "D" | 14 => "E" | _ => "F"
  end%char.

(** A byte as two upper-case hexadecimal digits. *)
Definition hex_pair (b : Z) : string :=
  String (hex_digit_upper (b / 16)) (String (hex_digit_upper (b mod 16)) "").

End Format.

(** ** The configuration tool ([GigEConfig.cpp]) *)

Module GigEConfig.

Import Format.
#[local] Open Scope list_scope.

(** *** The part of the camera library the tool reads

    A node that is not both available and readable is [None]. *)

Inductive InitOutcome :=
| InitOk (GevPersistentIPAddress GevPersistentSubnetMask
          GevPersistentDefaultGateway : option Z)
| InitInvalidAddress
| InitFailure (what : string).

Record Camera := {
  DeviceSerialNumber : option string;
  DeviceModelName : option string;
  DeviceVendorName : option string;
  GevDeviceIPAddress : option Z;
  GevDeviceSubnetMask : option Z;
  GevDeviceGateway : option Z;
  GevDeviceMACAddress : option Z;
  Init : InitOutcome
}.

Record Interface := {
  InterfaceType : option string;
  InterfaceDisplayName : option string;
  AutoForceIP : bool;                (* available and writable *)
  GetCameras : list Camera
}.

(** [system->GetInterfaces()]. *)
Definition System := list Interface.

(** [system->GetCameras()]: the cameras of all interfaces. *)
Definition SystemGetCameras (system : System) : list Camera :=
  flat_map GetCameras system.

(** What the process does that can be seen from outside: a line on the
    standard output, or a command executed on a node of interface [i]. *)
Inductive Effect :=
| Out (line : string)
| Execute (node : string) (i : nat).

(** *** Constants for validating user input (lines 41 to 43) *)

Definition zeroSerial : string := "0".
Definition zeroIPAddress : string := "0.0.0.0".
Definition zeroMACAddress : string := "00:00:00:00".

Definition Usage : list Effect :=
  [ Out ""; Out "Usage:"; Out "";
    Out "GigEConfig [-a | -s SerialNumber | -m MACAddress]";
    Out "GigEConfig -s <SerialNumber> -i <ipAddress> -n <netMask> -g <gateway>";
    Out "GigEConfig -m <MACAddress> -i <ipAddress> -n <netMask> -g <gateway>";
    Out ""; Out "Options:";
    Out "No arguments will list all discoverable cameras";
    Out "-a : Auto-configure all discoverable cameras";
    Out "-s : Serial number is used to specify camera";
    Out "-m : MAC address is used to specify camera";
    Out "     Bytes of MAC address must be separated by either a ':' or '-' character";
    Out "-i : IP-address to assign to camera. Cannot be all zeros.";
    Out "-n : Subnet mask to assign to camera. Cannot be all zeros.";
    Out "-g : Default gateway to assign to camera. Cannot be all zeros.";
    Out ""; Out "" ].

(** One [if (IsAvailable(p) && IsReadable(p)) cout << label << value]. *)
Definition print_node {A} (label : string) (show : A -> string)
    (node : option A) : list Effect :=
  match node with
  | Some v => [Out (label ++ " : " ++ show v)%string]
  | None => []
  end.

Definition PrintDeviceInfo (pCamera : Camera) : list Effect :=
  print_node "DeviceSerialNumber" id (DeviceSerialNumber pCamera) ++
  print_node "DeviceModelName" id (DeviceModelName pCamera) ++
  print_node "DeviceVendorName" id (DeviceVendorName pCamera) ++
  print_node "GevDeviceIPAddress" GetDottedAddress (GevDeviceIPAddress pCamera) ++
  print_node "GevDeviceSubnetMask" GetDottedAddress (GevDeviceSubnetMask pCamera) ++
  print_node "GevDeviceGateway" GetDottedAddress (GevDeviceGateway pCamera) ++
  print_node "GevDeviceMACAddress" GetMACAddress (GevDeviceMACAddress pCamera) ++
  match Init pCamera with
  | InitOk ip mask gw =>
      print_node "GevPersistentIPAddress" GetDottedAddress ip ++
      print_node "GevPersistentSubnetMask" GetDottedAddress mask ++
      print_node "GevPersistentDefaultGateway" GetDottedAddress gw
  | InitInvalidAddress =>
      [Out "Warning: Camera is on a wrong subnet. Run auto force IP (with -a option) to configure the camera correctly."]
  | InitFailure what => [Out what]
  end.

Definition show_nat (n : nat) : string := put_dec (Z.of_nat n).

(** The loop of [QueryInterface] over the camera list, from index [i]. *)
Fixpoint print_devices (i : nat) (camList : list Camera) : list Effect :=
  match camList with
  | [] => []
  | pCamera :: rest =>
      Out ("** Device " ++ show_nat i ++ " **")%string :: PrintDeviceInfo pCamera ++
      Out "" :: print_devices (S i) rest
  end.

(** [interfaceType.compare("GEV") != 0] when the node can be read. *)
Definition not_GEV (pInterface : Interface) : bool :=
  match InterfaceType pInterface with
  | Some interfaceType => negb (String.eqb interfaceType "GEV")
  | None => false
  end.

Definition interface_banner (pInterface : Interface) : Effect :=
  match InterfaceDisplayName pInterface with
  | Some interfaceDisplayName => Out ("*** " ++ interfaceDisplayName ++ " ***")%string
  | None => Out "*** Unknown Interface (Display name not readable) ***"
  end.

Definition QueryInterface (pInterface : Interface) : list Effect :=
  if not_GEV pInterface then []      (* only display GEV interface and devices *)
  else
    interface_banner pInterface ::
    match GetCameras pInterface with
    | [] => [Out "No devices detected."; Out ""]
    | camList => print_devices 0 camList
    end.

Definition ListAllDeviceInfo (system : System) : list Effect :=
  Out "---> Listing all discoverable cameras..." :: Out "" ::
  flat_map QueryInterface system.

(** [camList.GetBySerial(serialNumber)]. *)
Definition GetBySerial (camList : list Camera) (serialNumber : string)
  : option Camera :=
  find (fun c => match DeviceSerialNumber c with
                 | Some s => String.eqb s serialNumber
                 | None => false
                 end) camList.

Definition ListDeviceInfoBySerial (system : System) (serialNumber : string)
  : list Effect :=
  Out "---> Listing device info from serial number..." :: Out "" ::
  match GetBySerial (SystemGetCameras system) serialNumber with
  | Some pCamera => PrintDeviceInfo pCamera ++ [Out ""]
  | None =>
      [Out ("--> Could not discover camera with serial number: " ++ serialNumber)%string]
  end.

(** The loop of [ListDeviceInfoByMAC]; the boolean is [bCameraFound]. *)
Fixpoint scan_by_mac (macAddress : string) (camList : list Camera)
    (bCameraFound : bool) : list Effect * bool :=
  match camList with
  | [] => ([], bCameraFound)
  | pCamera :: rest =>
      match GevDeviceMACAddress pCamera with
      | Some v =>
          if String.eqb (GetMACAddress v) macAddress then
            let '(out, found) := scan_by_mac macAddress rest true in
            (PrintDeviceInfo pCamera ++ Out "" :: out, found)
          else scan_by_mac macAddress rest bCameraFound
      | None => scan_by_mac macAddress rest bCameraFound
      end
  end.

Definition ListDeviceInfoByMAC (system : System) (macAddress : string)
  : list Effect :=
  Out "---> Listing device info from MAC Address..." :: Out "" ::
  let '(out, bCameraFound) :=
    scan_by_mac macAddress (SystemGetCameras system) false in
  if bCameraFound then out
  else out ++
       [Out ("--> Could not discover camera with MAC address: " ++ macAddress)%string].

(** The loop of [AutoConfigure] over the interface list, from index [i]. *)
Fixpoint force_interfaces (i : nat) (interfaceList : list Interface)
  : list Effect :=
  match interfaceList with
  | [] => []
  | pInterface :: rest =>
      (if not_GEV pInterface then []      (* only force IP on GEV interface *)
       else
         interface_banner pInterface ::
         (if AutoForceIP pInterface
          then [Execute "AutoForceIP" i; Out "AutoForceIP executed"]
          else [Out "Warning : Force IP node not available for this interface"])
         ++ [Out ""])
      ++ force_interfaces (S i) rest
  end.

Definition AutoConfigure (system : System) : list Effect :=
  [ Out "---> Setting all GigE cameras discovered to an IP configuration";
    Out "---> that will allow it to work with Spinnaker..."; Out "" ] ++
  force_interfaces 0 system ++
  [ Out "---> Auto-configuration complete"; Out "" ].

Definition not_supported_message : string :=
  "Spinnaker currently does not support forcing specific IP address, netmask and gateway to device!".

Definition ConfigureCamera (serial macAddress ipAddress netMask gateway : string)
  : list Effect :=
  [Out not_supported_message].

(** *** [main] *)

(** The five strings that [main] fills from the command line. *)
Record Options := {
  serialNumber : string;
  macAddress : string;
  ipAddress : string;
  subnetMask : string;
  gateway : string
}.

Definition no_options : Options :=
  {| serialNumber := ""; macAddress := ""; ipAddress := "";
     subnetMask := ""; gateway := "" |}.

(** [(strcmp(a, lower) == 0) || (strcmp(a, upper) == 0)]. *)
Definition is_flag (a lower upper : string) : bool :=
  String.eqb a lower || String.eqb a upper.

(** [argv[i]]; the accesses of [main] are all inside the array. *)
Definition arg (argv : list string) (i : nat) : string := nth i argv "".

(** The body of the loop of [case 9]. *)
Definition read_option (argv : list string) (i : nat) (o : Options) : Options :=
  if is_flag (arg argv i) "-s" "-S" then
    {| serialNumber := arg argv (i + 1); macAddress := macAddress o;
       ipAddress := ipAddress o; subnetMask := subnetMask o;
       gateway := gateway o |}
  else if is_flag (arg argv i) "-m" "-M" then
    {| serialNumber := serialNumber o;
       macAddress := GetMACAddressStr (arg argv (i + 1));
       ipAddress := ipAddress o; subnetMask := subnetMask o;
       gateway := gateway o |}
  else if is_flag (arg argv i) "-i" "-I" then
    {| serialNumber := serialNumber o; macAddress := macAddress o;
       ipAddress := arg argv (i + 1); subnetMask := subnetMask o;
       gateway := gateway o |}
  else if is_flag (arg argv i) "-n" "-N" then
    {| serialNumber := serialNumber o; macAddress := macAddress o;
       ipAddress := ipAddress o; subnetMask := arg argv (i + 1);
       gateway := gateway o |}
  else if is_flag (arg argv i) "-g" "-G" then
    {| serialNumber := serialNumber o; macAddress := macAddress o;
       ipAddress := ipAddress o; subnetMask := subnetMask o;
       gateway := arg argv (i + 1) |}
  else o.

(** [for (int i = 1; i < argc; i = i + 2)]; [fuel] bounds the number of
    rounds and [argc] rounds are always enough. *)
Fixpoint read_options (fuel : nat) (argv : list string) (i : nat)
    (o : Options) : Options :=
  match fuel with
  | O => o
  | S fuel' =>
      if Nat.ltb i (List.length argv)
      then read_options fuel' argv (i + 2) (read_option argv i o)
      else o
  end.

(** The condition under which [case 9] configures the camera. *)
Definition options_valid (o : Options) : bool :=
  (negb (String.eqb (serialNumber o) zeroSerial) ||
   negb (String.eqb (macAddress o) zeroMACAddress)) &&
  negb (String.eqb (ipAddress o) zeroIPAddress) &&
  negb (String.eqb (subnetMask o) zeroIPAddress) &&
  negb (String.eqb (gateway o) zeroIPAddress).

Definition banner : list Effect :=
  [Out ""; Out "*** FLIR GigE Config Utility ***"; Out ""].

(** The [switch (argc)]: what it does and the final [bCommandIsValid]. *)
Definition run_command (system : System) (argv : list string)
  : list Effect * bool :=
  match List.length argv with
  | 1%nat => (ListAllDeviceInfo system, true)
  | 2%nat =>
      if is_flag (arg argv 1) "-a" "-A"
      then (AutoConfigure system, true)
      else ([], false)
  | 3%nat =>
      if is_flag (arg argv 1) "-s" "-S" then
        (ListDeviceInfoBySerial system (arg argv 2), true)
      else if is_flag (arg argv 1) "-m" "-M" then
        (ListDeviceInfoByMAC system (GetMACAddressStr (arg argv 2)), true)
      else ([], false)
  | 9%nat =>
      let o := read_options (List.length argv) argv 1 no_options in
      if options_valid o then
        (ConfigureCamera (serialNumber o) (macAddress o) (ipAddress o)
           (subnetMask o) (gateway o), true)
      else ([], false)
  | _ => ([], false)
  end.

(** [main(argc, argv)] with [argc = length argv]: the effects and the value
    returned. *)
Definition main (system : System) (argv : list string) : list Effect * Z :=
  let '(done, bCommandIsValid) := run_command system argv in
  if negb bCommandIsValid
  then (banner ++ done ++ Usage, -1)
  else (banner ++ done, 0).

(** *** The command line as the usage text gives it

    Flags are taken in either case.  A command is the program name alone,
    [-a], [-s SerialNumber], [-m MACAddress], or a camera ([-s] or [-m])
    with [-i], [-n] and [-g], each once, in any order, the three addresses
    not all zeros. *)

Inductive Flag := FSerial | FMac | FIp | FMask | FGateway | FAuto.

Definition flag_of (a : string) : option Flag :=
  if is_flag a "-s" "-S" then Some FSerial
  else if is_flag a "-m" "-M" then Some FMac
  else if is_flag a "-i" "-I" then Some FIp
  else if is_flag a "-n" "-N" then Some FMask
  else if is_flag a "-g" "-G" then Some FGateway
  else if is_flag a "-a" "-A" then Some FAuto
  else None.

Definition is_camera (f : option Flag) : bool :=
  match f with Some FSerial | Some FMac => true | _ => false end.

Definition is_address (f : option Flag) : bool :=
  match f with Some FIp | Some FMask | Some FGateway => true | _ => false end.

Definition same_flag (f g : option Flag) : bool :=
  match f, g with
  | Some FSerial, Some FSerial | Some FMac, Some FMac | Some FIp, Some FIp
  | Some FMask, Some FMask | Some FGateway, Some FGateway
  | Some FAuto, Some FAuto => true
  | _, _ => false
  end.

(** How many of the pairs carry the flag [g]. *)
Definition count_flag (g : Flag) (pairs : list (string * string)) : nat :=
  List.length (filter (fun p => same_flag (flag_of (fst p)) (Some g)) pairs).

Definition pair_ok (p : string * string) : bool :=
  is_camera (flag_of (fst p)) ||
  (is_address (flag_of (fst p)) && negb (String.eqb (snd p) zeroIPAddress)).

Definition well_formed_command (argv : list string) : bool :=
  match argv with
  | [_] => true
  | [_; a] => same_flag (flag_of a) (Some FAuto)
  | [_; f; _] => is_camera (flag_of f)
  | [_; f1; v1; f2; v2; f3; v3; f4; v4] =>
      let pairs := [(f1, v1); (f2, v2); (f3, v3); (f4, v4)] in
      forallb pair_ok pairs &&
      Nat.eqb (count_flag FSerial pairs + count_flag FMac pairs) 1 &&
      Nat.eqb (count_flag FIp pairs) 1 &&
      Nat.eqb (count_flag FMask pairs) 1 &&
      Nat.eqb (count_flag FGateway pairs) 1
  | _ => false
  end.

(** The lower-case spelling of a flag; any other text is kept. *)
Definition lower_flag (a : string) : string :=
  if String.eqb a "-A" then "-a"
  else if String.eqb a "-S" then "-s"
  else if String.eqb a "-M" then "-m"
  else if String.eqb a "-I" then "-i"
  else if String.eqb a "-N" then "-n"
  else if String.eqb a "-G" then "-g"
  else a.

Definition upper_flag (a : string) : string :=
  if String.eqb a "-a" then "-A"
  else if String.eqb a "-s" then "-S"
  else if String.eqb a "-m" then "-M"
  else if String.eqb a "-i" then "-I"
  else if String.eqb a "-n" then "-N"
  else if String.eqb a "-g" then "-G"
  else a.

(** [respell f argv] rewrites the flag positions of a command line (the
    odd indices: [argv[1]], [argv[3]], ...) and keeps the program name and
    the values. *)
Fixpoint respell_from (f : string -> string) (at_flag : bool)
    (argv : list string) : list string :=
  match argv with
  | [] => []
  | a :: rest =>
      (if at_flag then f a else a) :: respell_from f (negb at_flag) rest
  end.

Definition respell (f : string -> string) (argv : list string) : list string :=
  respell_from f false argv.

(** A command line of eight stray words after the program name. *)
Definition stray_words : list string :=
  ["GigEConfig"; "a"; "b"; "c"; "d"; "e"; "f"; "g"; "h"].

(** A request to force an address onto the camera of a serial number. *)
Definition force_request : list string :=
  ["GigEConfig"; "-s"; "12345678"; "-i"; "192.168.1.10";
   "-n"; "255.255.255.0"; "-g"; "192.168.1.1"].

(** The pairs of spellings that [main] tests for. *)
Definition flag_table : list (string * string) :=
  [("-a", "-A"); ("-s", "-S"); ("-m", "-M");
   ("-i", "-I"); ("-n", "-N"); ("-g", "-G")].

(** [a] is the flag written in lower case or in upper case. *)
Definition spelled (lower upper a : string) : Prop := a = lower \/ a = upper.

(** A respelling that no flag test of [main] can tell from the original. *)
Definition flag_preserving (f : string -> string) : Prop :=
  forall a lo up,
    In (lo, up) flag_table -> is_flag (f a) lo up = is_flag a lo up.

End GigEConfig.

(** ** The topology registry

    [EnumerationEvents.cpp] calls the camera library for the interface
    list and for the registration of event handlers; the library itself is
    not among the sources.  This module holds the registry those calls
    reach. *)

Module Registry.

#[local] Open Scope list_scope.
#[local] Open Scope nat_scope.

(** Modelled from the spec: the errors of section 7, with the
    [IndexOutOfRange] of the design notes (the library's exception type is
    missing from the sources). *)
Inductive Error :=
| EnumerationError
| StaleHandle
| AlreadyReleased
| InvalidAddress
| NotSupported
| IndexOutOfRange.

Inductive Result (A : Type) :=
| Ok (a : A)
| Throw (e : Error).
Arguments Ok {A} a.
Arguments Throw {A} e.

(** Modelled from the spec: the device identity of the data model, a
    64-bit serial number with a display string (the library's device
    objects are missing from the sources). *)
Record DeviceIdentity := {
  serial : Z;
  display : string
}.

Definition DeviceIdentity_eq_dec (a b : DeviceIdentity) : {a = b} + {a <> b}.
Proof.
  decide equality; [apply string_dec | apply Z.eq_dec].
Defined.

(** Modelled from the spec: the enumerated interface type. *)
Inductive InterfaceType := GEV | USB3 | Other.

(** Modelled from the spec: the interface identity, a string ID with the
    ordinal index given at the refresh that produced it. *)
Record InterfaceIdentity := {
  id : string;
  index : nat
}.

(** Modelled from the spec: the interface handle of the data model.
    [origin] is the number of the snapshot that produced the handle, which
    is how a handle is tied to its originating snapshot. *)
Record InterfaceHandle := {
  origin : nat;
  identity : InterfaceIdentity;
  interfaceType : InterfaceType;
  attached : list DeviceIdentity
}.

(** Modelled from the spec: the topology snapshot, the interface handles
    and the flattened, system-wide device list. *)
Record TopologySnapshot := {
  interfaces : list InterfaceHandle;
  devices : list DeviceIdentity
}.

(** Modelled from the spec: what the transport layer, an opaque source
    of the topology, reports for one interface when it is asked to
    enumerate. *)
Record Port := {
  port_id : string;
  port_type : InterfaceType;
  port_devices : list DeviceIdentity
}.

(** Modelled from the spec: the transport layer at the time of a call,
    [None] when it cannot be queried. *)
Definition Transport := option (list Port).

(** Modelled from the spec: the handles of snapshot number [n], one for
    each interface reported, with ordinal indices from [i]. *)
Fixpoint issue_handles (n i : nat) (ports : list Port) : list InterfaceHandle :=
  match ports with
  | [] => []
  | p :: rest =>
      {| origin := n;
         identity := {| id := port_id p; index := i |};
         interfaceType := port_type p;
         attached := port_devices p |} :: issue_handles n (S i) rest
  end.

(** Modelled from the spec: the snapshot taken from an enumeration (the
    library's enumeration is missing from the sources). *)
Definition take_snapshot (n : nat) (ports : list Port) : TopologySnapshot :=
  {| interfaces := issue_handles n 0 ports;
     devices := flat_map port_devices ports |}.

(** The data model takes a device identity as unique within a session:
    the transport layer reports no identity twice. *)
Definition session_unique (ports : list Port) : Prop :=
  NoDup (flat_map port_devices ports).

Section WithSubscriptions.

(** The callback bindings of a subscription, whatever form the client
    gives them (a handler object, or a function with its context). *)
Context {Sub : Type}.

(** Modelled from the spec: the registry, its current snapshot and the
    subscriptions of both scopes.  [epoch] counts the snapshots taken, and
    [current] is [None] until the first one. *)
Record Registry := {
  epoch : nat;
  current : option TopologySnapshot;
  interface_subscriptions : list (InterfaceHandle * Sub);
  system_subscriptions : list Sub
}.

Definition initial : Registry :=
  {| epoch := 0; current := None;
     interface_subscriptions := []; system_subscriptions := [] |}.

(** Modelled from the spec: [Refresh] re-enumerates, replaces the stored
    snapshot and with it invalidates the handles issued before and the
    interface-scope subscriptions held against them; when the transport
    layer cannot be queried it fails with [EnumerationError] and the
    previous snapshot stays. *)
Definition Refresh (t : Transport) (r : Registry)
  : Result TopologySnapshot * Registry :=
  match t with
  | None => (Throw EnumerationError, r)
  | Some ports =>
      let snap := take_snapshot (S (epoch r)) ports in
      (Ok snap,
       {| epoch := S (epoch r); current := Some snap;
          interface_subscriptions := [];
          system_subscriptions := system_subscriptions r |})
  end.

(** Modelled from the spec: [GetInterfaces] reads the current snapshot,
    and takes the first one when none was ever taken. *)
Definition GetInterfaces (t : Transport) (r : Registry)
  : Result (list InterfaceHandle) * Registry :=
  match current r with
  | Some snap => (Ok (interfaces snap), r)
  | None =>
      match Refresh t r with
      | (Ok snap, r') => (Ok (interfaces snap), r')
      | (Throw e, r') => (Throw e, r')
      end
  end.

(** Modelled from the spec: [GetDevices], the same contract over the
    flattened list. *)
Definition GetDevices (t : Transport) (r : Registry)
  : Result (list DeviceIdentity) * Registry :=
  match current r with
  | Some snap => (Ok (devices snap), r)
  | None =>
      match Refresh t r with
      | (Ok snap, r') => (Ok (devices snap), r')
      | (Throw e, r') => (Throw e, r')
      end
  end.

(** Modelled from the spec: a handle is live while its originating
    snapshot is the current one. *)
Definition live (r : Registry) (h : InterfaceHandle) : bool :=
  match current r with
  | Some _ => Nat.eqb (origin h) (epoch r)
  | None => false
  end.

(** Modelled from the spec: [RegisterSubscription] on an interface
    handle fails with [StaleHandle] once the handle's snapshot has been
    superseded. *)
Definition RegisterSubscription (h : InterfaceHandle) (s : Sub) (r : Registry)
  : Result unit * Registry :=
  if live r h then
    (Ok tt,
     {| epoch := epoch r; current := current r;
        interface_subscriptions := interface_subscriptions r ++ [(h, s)];
        system_subscriptions := system_subscriptions r |})
  else (Throw StaleHandle, r).

(** Modelled from the spec: [RegisterSystemSubscription]; subscriptions
    may coexist and the registry does not count them. *)
Definition RegisterSystemSubscription (s : Sub) (r : Registry)
  : Result unit * Registry :=
  (Ok tt,
   {| epoch := epoch r; current := current r;
      interface_subscriptions := interface_subscriptions r;
      system_subscriptions := system_subscriptions r ++ [s] |}).

(** The operations a client can run against the registry, each with the
    state of the transport layer at the time of the call. *)
Inductive Op :=
| DoRefresh (t : Transport)
| DoGetInterfaces (t : Transport)
| DoGetDevices (t : Transport)
| DoRegister (h : InterfaceHandle) (s : Sub)
| DoRegisterSystem (s : Sub).

Definition apply (o : Op) (r : Registry) : Registry :=
  match o with
  | DoRefresh t => snd (Refresh t r)
  | DoGetInterfaces t => snd (GetInterfaces t r)
  | DoGetDevices t => snd (GetDevices t r)
  | DoRegister h s => snd (RegisterSubscription h s r)
  | DoRegisterSystem s => snd (RegisterSystemSubscription s r)
  end.

Fixpoint run (ops : list Op) (r : Registry) : Registry :=
  match ops with
  | [] => r
  | o :: rest => run rest (apply o r)
  end.

(** The handles the registry hands out in state [r]. *)
Definition issued (r : Registry) : list InterfaceHandle :=
  match current r with
  | Some snap => interfaces snap
  | None => []
  end.

(** Every handle the registry hands out carries the number of the
    current snapshot. *)
Definition stamped (r : Registry) : Prop :=
  forall h, In h (issued r) -> origin h = epoch r.

End WithSubscriptions.

Arguments Registry Sub : clear implicits.
Arguments Op Sub : clear implicits.

(** *** A small topology to try things on *)

Definition sample_camera : DeviceIdentity :=
  {| serial := 17491073; display := "FLIR Blackfly S BFS-PGE-16S2M" |}.

Definition sample_ports : list Port :=
  [ {| port_id := "eth0"; port_type := GEV;
       port_devices := [ {| serial := 17491072; display := "FLIR Blackfly S BFS-PGE-16S2M" |};
                         sample_camera ] |};
    {| port_id := "usb0"; port_type := USB3;
       port_devices := [ {| serial := 18283530; display := "FLIR Blackfly S BFS-U3-13Y3M" |} ] |} ].

(** The first handle of the first snapshot of [sample_ports]. *)
Definition sample_handle : InterfaceHandle :=
  {| origin := 1;
     identity := {| id := "eth0"; index := 0 |};
     interfaceType := GEV;
     attached := port_devices
                   {| port_id := "eth0"; port_type := GEV;
                      port_devices := [ {| serial := 17491072; display := "FLIR Blackfly S BFS-PGE-16S2M" |};
                                        sample_camera ] |} |}.


End Registry.

(** ** The event handlers of [EnumerationEvents.cpp] *)

Module EnumerationEvents.

Import Format Registry.
#[local] Open Scope list_scope.
#[local] Open Scope nat_scope.

(** The fields of [class InterfaceEventHandler].  [m_interfaceNum] is an
    [unsigned int]. *)
Record InterfaceEventHandler := {
  m_interface : option InterfaceHandle;
  m_interfaceNum : Z;
  m_registerToSystem : bool
}.

(** [InterfaceEventHandler(SystemPtr system)]: the [-1] given to
    [m_interfaceNum] is converted to [unsigned int]. *)
Definition InterfaceEventHandler_on_system : InterfaceEventHandler :=
  {| m_interface := None;
     m_interfaceNum := to_uint32 (-1);
     m_registerToSystem := true |}.

(** [InterfaceEventHandler(InterfacePtr iface, unsigned int interfaceNum)]. *)
Definition InterfaceEventHandler_on_interface (iface : InterfaceHandle)
    (interfaceNum : nat) : InterfaceEventHandler :=
  {| m_interface := Some iface;
     m_interfaceNum := Z.of_nat interfaceNum;
     m_registerToSystem := false |}.

(** What a handler does that can be seen from outside: a line on the
    standard output, or a call into the library. *)
Inductive Event :=
| Print (line : string)
| CallUpdateInterfaceList
| CallGetInterfaces
| CallRegisterInterfaceEvent (handler : InterfaceEventHandler)
| CallRegisterEvent (iface : InterfaceHandle) (handler : InterfaceEventHandler).

(** The state a [SystemEventHandler] runs in: the transport layer, the
    system object behind [m_system], its own two fields, and what it has
    done so far.  The transport layer does not change while one handler
    runs. *)
Record World := {
  transport : Transport;
  system : Registry InterfaceEventHandler;
  m_interfaceEventHandlerOnSystem : option InterfaceEventHandler;
  m_interfaceEventHandlers : list InterfaceEventHandler;
  trace : list Event
}.

Definition with_system (r : Registry InterfaceEventHandler) (w : World) : World :=
  {| transport := transport w; system := r;
     m_interfaceEventHandlerOnSystem := m_interfaceEventHandlerOnSystem w;
     m_interfaceEventHandlers := m_interfaceEventHandlers w;
     trace := trace w |}.

Definition with_handlerOnSystem (h : option InterfaceEventHandler) (w : World)
  : World :=
  {| transport := transport w; system := system w;
     m_interfaceEventHandlerOnSystem := h;
     m_interfaceEventHandlers := m_interfaceEventHandlers w;
     trace := trace w |}.

Definition with_handlers (l : list InterfaceEventHandler) (w : World) : World :=
  {| transport := transport w; system := system w;
     m_interfaceEventHandlerOnSystem := m_interfaceEventHandlerOnSystem w;
     m_interfaceEventHandlers := l;
     trace := trace w |}.

Definition with_trace (t : list Event) (w : World) : World :=
  {| transport := transport w; system := system w;
     m_interfaceEventHandlerOnSystem := m_interfaceEventHandlerOnSystem w;
     m_interfaceEventHandlers := m_interfaceEventHandlers w;
     trace := t |}.

(** *** Statements with state and exceptions

    A statement ends by returning, by throwing a library exception, or in
    undefined behaviour (an index outside a [vector]). *)

Inductive Outcome (A : Type) :=
| Done (a : A)
| Raised (e : Error)
| Undefined.
Arguments Done {A} a.
Arguments Raised {A} e.
Arguments Undefined {A}.

Definition M (A : Type) : Type := World -> Outcome A * World.

Definition ret {A} (a : A) : M A := fun w => (Done a, w).

Definition bind {A B} (c : M A) (k : A -> M B) : M B :=
  fun w =>
    match c w with
    | (Done a, w') => k a w'
    | (Raised e, w') => (Raised e, w')
    | (Undefined, w') => (Undefined, w')
    end.

Notation "x <- c ;; k" := (bind c (fun x => k))
  (at level 61, c at next level, right associativity).
Notation "c ;; k" := (bind c (fun _ => k))
  (at level 61, right associativity).

Definition emit (e : Event) : M unit :=
  fun w => (Done tt, with_trace (trace w ++ [e]) w).

Definition print (line : string) : M unit := emit (Print line).

(** A call into the registry, with the transport layer as it is now. *)
Definition library {A}
    (call : Transport -> Registry InterfaceEventHandler ->
            Result A * Registry InterfaceEventHandler) : M A :=
  fun w =>
    match call (transport w) (system w) with
    | (Ok a, r) => (Done a, with_system r w)
    | (Throw e, r) => (Raised e, with_system r w)
    end.

(** [m_system->UpdateInterfaceList()]. *)
Definition UpdateInterfaceList : M unit :=
  emit CallUpdateInterfaceList ;;
  _ <- library Refresh ;;
  ret tt.

(** [m_system->GetInterfaces()]. *)
Definition SystemGetInterfaces : M (list InterfaceHandle) :=
  emit CallGetInterfaces ;;
  library GetInterfaces.

(** [m_system->RegisterInterfaceEvent(handler)]. *)
Definition RegisterInterfaceEvent (handler : InterfaceEventHandler) : M unit :=
  emit (CallRegisterInterfaceEvent handler) ;;
  library (fun _ => RegisterSystemSubscription handler).

(** [pInterface->RegisterEvent(handler)]. *)
Definition RegisterEvent (pInterface : InterfaceHandle)
    (handler : InterfaceEventHandler) : M unit :=
  emit (CallRegisterEvent pInterface handler) ;;
  library (fun _ => RegisterSubscription pInterface handler).

(** [list.GetByIndex(i)]: an exception when the index is out of range. *)
Definition GetByIndex {A} (l : list A) (i : nat) : M A :=
  fun w =>
    match nth_error l i with
    | Some a => (Done a, w)
    | None => (Raised IndexOutOfRange, w)
    end.

(** [m_interfaceEventHandlers[i]]. *)
Definition handler_at (i : nat) : M InterfaceEventHandler :=
  fun w =>
    match nth_error (m_interfaceEventHandlers w) i with
    | Some h => (Done h, w)
    | None => (Undefined, w)
    end.

(** [for (unsigned int i = first; i < first + count; i++) body]. *)
Fixpoint for_range (count first : nat) (body : nat -> M unit) : M unit :=
  match count with
  | O => ret tt
  | S k => body first ;; for_range k (S first) body
  end.

(** The text of a device serial number. *)
Definition show_serial (d : DeviceIdentity) : string := put_dec (serial d).

Definition show_index (i : nat) : string := put_dec (Z.of_nat i).

(** *** [class SystemEventHandler] *)

Definition RegisterInterfaceEventToSystem : M unit :=
  (fun w =>
     match m_interfaceEventHandlerOnSystem w with
     | None =>
         (Done tt, with_handlerOnSystem (Some InterfaceEventHandler_on_system) w)
     | Some _ => (Done tt, w)
     end) ;;
  (fun w =>
     match m_interfaceEventHandlerOnSystem w with
     | Some handler => RegisterInterfaceEvent handler w
     | None => (Undefined, w)
     end).

(** The body of the loop of [RegisterInterfaceEvents]. *)
Definition register_interface (interfaceList : list InterfaceHandle) (i : nat)
  : M unit :=
  pInterface <- GetByIndex interfaceList i ;;
  let interfaceEventHandler := InterfaceEventHandler_on_interface pInterface i in
  (fun w => (Done tt, with_handlers
               (m_interfaceEventHandlers w ++ [interfaceEventHandler]) w)) ;;
  handler <- handler_at i ;;
  RegisterEvent pInterface handler ;;
  print ("Event handler registered to interface " ++ show_index i ++ "...")%string.

Definition RegisterInterfaceEvents : M unit :=
  (fun w =>
     match m_interfaceEventHandlers w with
     | [] => (Done tt, w)
     | _ :: _ => (Done tt, with_handlers [] w)
     end) ;;
  interfaceList <- SystemGetInterfaces ;;
  let numInterfaces := List.length interfaceList in
  for_range numInterfaces 0 (register_interface interfaceList) ;;
  print "".

(** The body of the loop over the cameras of the arrived interface.  The
    serial number node of a device reads as its serial number. *)
Definition show_camera (interfaceID : string) (cameraList : list DeviceIdentity)
    (camIdx : nat) : M unit :=
  pCam <- GetByIndex cameraList camIdx ;;
  print ("	Device " ++ show_serial pCam ++ " is connected to interface "
         ++ interfaceID ++ ".")%string ;;
  print "".

(** The body of the loop of [OnInterfaceArrival] over the new interface
    list.  The [InterfaceID] node of a handle reads as the handle's ID. *)
Definition show_arrived (interfaceID : string)
    (interfaceList : list InterfaceHandle) (ifaceIdx : nat) : M unit :=
  pInterface <- GetByIndex interfaceList ifaceIdx ;;
  if negb (String.eqb interfaceID (id (identity pInterface)))
  then ret tt
  else
    let cameraList := attached pInterface in
    let numCameras := List.length cameraList in
    for_range numCameras 0 (show_camera interfaceID cameraList).

Definition OnInterfaceArrival (interfaceID : string) : M unit :=
  print "System event handler:" ;;
  print ("	Interface " ++ interfaceID ++ " has arrived on the system.")%string ;;
  print "" ;;
  UpdateInterfaceList ;;
  interfaceList <- SystemGetInterfaces ;;
  let numInterfaces := List.length interfaceList in
  for_range numInterfaces 0 (show_arrived interfaceID interfaceList) ;;
  RegisterInterfaceEventToSystem ;;
  RegisterInterfaceEvents.

Definition OnInterfaceRemoval (interfaceID : string) : M unit :=
  print "System event handler:" ;;
  print ("	Interface " ++ interfaceID ++ " was removed from the system.")%string ;;
  print "" ;;
  UpdateInterfaceList ;;
  RegisterInterfaceEventToSystem ;;
  RegisterInterfaceEvents.

(** *** Reading a trace *)

Definition is_call (e : Event) : bool :=
  match e with
  | Print _ => false
  | _ => true
  end.

(** The calls into the library, in the order they were made. *)
Definition calls (t : list Event) : list Event := filter is_call t.

Definition is_refresh_or_register (e : Event) : bool :=
  match e with
  | CallUpdateInterfaceList | CallRegisterEvent _ _ => true
  | _ => false
  end.

(** The handlers that [RegisterInterfaceEvents] makes for the interfaces
    [l], numbered from [first]. *)
Fixpoint handlers_for (first : nat) (l : list InterfaceHandle)
  : list InterfaceEventHandler :=
  match l with
  | [] => []
  | h :: rest =>
      InterfaceEventHandler_on_interface h first :: handlers_for (S first) rest
  end.

(** One [RegisterEvent] call for each interface of [l], in the order of
    the list. *)
Definition register_calls (first : nat) (l : list InterfaceHandle) : list Event :=
  map (fun p => CallRegisterEvent (fst p) (snd p))
      (combine l (handlers_for first l)).

(** What the loop of [RegisterInterfaceEvents] leaves on the trace. *)
Fixpoint registration_events (first : nat) (l : list InterfaceHandle)
  : list Event :=
  match l with
  | [] => []
  | h :: rest =>
      CallRegisterEvent h (InterfaceEventHandler_on_interface h first) ::
      Print ("Event handler registered to interface " ++ show_index first ++ "...")%string ::
      registration_events (S first) rest
  end.

(** The handler registered at system scope once a handler has run. *)
Definition handler_on_system (w : World) : InterfaceEventHandler :=
  match m_interfaceEventHandlerOnSystem w with
  | Some h => h
  | None => InterfaceEventHandler_on_system
  end.

(** A world to try things on: nothing enumerated or registered yet. *)
Definition sample_world : World :=
  {| transport := Some sample_ports;
     system := initial;
     m_interfaceEventHandlerOnSystem := None;
     m_interfaceEventHandlers := [];
     trace := [] |}.

(** An interface of the current list has an interface-scope subscription. *)
Definition subscribed (w : World) (h : InterfaceHandle) : Prop :=
  exists handler, In (h, handler) (interface_subscriptions (system w)).

End EnumerationEvents.

(** ** Words to state what the configuration tool does *)

Module GigEConfigNotions.

Import Format GigEConfig.
#[local] Open Scope list_scope.

Fixpoint all_chars (p : ascii -> bool) (s : string) : bool :=
  match s with
  | EmptyString => true
  | String c r => p c && all_chars p r
  end.

Definition one_of (chars : string) (c : ascii) : bool :=
  existsb (Ascii.eqb c) (list_ascii_of_string chars).

(** The characters of a formatted MAC address. *)
Definition is_mac_char : ascii -> bool := one_of "0123456789ABCDEF:".

Definition is_decimal_digit : ascii -> bool := one_of "0123456789".

Definition is_out (e : Effect) : bool :=
  match e with
  | Out _ => true
  | Execute _ _ => false
  end.

(** The commands executed, in the order they were. *)
Definition commands (l : list Effect) : list (string * nat) :=
  flat_map (fun e => match e with
                     | Execute node i => [(node, i)]
                     | Out _ => []
                     end) l.

(** The test of the loop of [ListDeviceInfoByMAC] on one camera. *)
Definition mac_matches (macAddress : string) (c : Camera) : bool :=
  match GevDeviceMACAddress c with
  | Some v => String.eqb (GetMACAddress v) macAddress
  | None => false
  end.

(** The camera has a readable MAC address node with the low 48 bits of
    [v]. *)
Definition has_mac (v : Z) (c : Camera) : bool :=
  match GevDeviceMACAddress c with
  | Some u => Z.eqb (u mod 2 ^ 48) (v mod 2 ^ 48)
  | None => false
  end.

(** What [ListDeviceInfoByMAC] prints for a camera it has found. *)
Definition found_block (c : Camera) : list Effect :=
  PrintDeviceInfo c ++ [Out ""].

(** What is printed for the cameras of [camList] that pass [test]. *)
Definition found_blocks (test : Camera -> bool) (camList : list Camera)
  : list Effect :=
  flat_map (fun c => if test c then found_block c else []) camList.

(** An interface on which [AutoConfigure] executes the command. *)
Definition forced (pInterface : Interface) : bool :=
  negb (not_GEV pInterface) && AutoForceIP pInterface.

(** The words after the program name, two by two. *)
Fixpoint pairs_of (words : list string) : list (string * string) :=
  match words with
  | flag :: value :: rest => (flag, value) :: pairs_of rest
  | _ => []
  end.

(** The value that follows the last occurrence of a flag, if any. *)
Definition last_value (lower upper : string) (pairs : list (string * string))
  : option string :=
  fold_left (fun found p => if is_flag (fst p) lower upper
                            then Some (snd p) else found)
            pairs None.

Definition or_empty (o : option string) : string :=
  match o with
  | Some s => s
  | None => ""
  end.

(** A system to try things on: a GigE interface with two cameras and a
    USB3 interface with one. *)
Definition sample_gige_camera : Camera :=
  {| DeviceSerialNumber := Some "17491073";
     DeviceModelName := Some "Blackfly S BFS-PGE-16S2M";
     DeviceVendorName := Some "FLIR";
     GevDeviceIPAddress := Some 0xC0A80101;
     GevDeviceSubnetMask := Some 0xFFFFFF00;
     GevDeviceGateway := Some 0xC0A801FE;
     GevDeviceMACAddress := Some 0x001122334455;
     Init := InitInvalidAddress |}.

Definition sample_other_camera : Camera :=
  {| DeviceSerialNumber := Some "17491072";
     DeviceModelName := None;
     DeviceVendorName := None;
     GevDeviceIPAddress := Some 0xA9FE0102;
     GevDeviceSubnetMask := None;
     GevDeviceGateway := None;
     GevDeviceMACAddress := Some 0x00B09D0A0B0C;
     Init := InitOk (Some 0) None None |}.

Definition sample_usb_camera : Camera :=
  {| DeviceSerialNumber := Some "18283530";
     DeviceModelName := Some "Blackfly S BFS-U3-13Y3M";
     DeviceVendorName := Some "FLIR";
     GevDeviceIPAddress := None;
     GevDeviceSubnetMask := None;
     GevDeviceGateway := None;
     GevDeviceMACAddress := None;
     Init := InitOk None None None |}.

Definition sample_system : System :=
  [ {| InterfaceType := Some "GEV"; InterfaceDisplayName := Some "eth0";
       AutoForceIP := true;
       GetCameras := [sample_other_camera; sample_gige_camera] |};
    {| InterfaceType := Some "USB3"; InterfaceDisplayName := Some "usb0";
       AutoForceIP := false;
       GetCameras := [sample_usb_camera] |} ].

End GigEConfigNotions.

(** ** The device events and the teardown of [EnumerationEvents.cpp] *)

Module DeviceEvents.

Import Format Registry EnumerationEvents.
#[local] Open Scope list_scope.
#[local] Open Scope nat_scope.

Definition InterfaceHandle_eq_dec (a b : InterfaceHandle) : {a = b} + {a <> b}.
Proof.
  decide equality.
  - apply (list_eq_dec DeviceIdentity_eq_dec).
  - decide equality.
  - decide equality; [apply Nat.eq_dec | apply string_dec].
  - apply Nat.eq_dec.
Defined.

Definition InterfaceEventHandler_eq_dec (a b : InterfaceEventHandler)
  : {a = b} + {a <> b}.
Proof.
  decide equality.
  - apply Bool.bool_dec.
  - apply Z.eq_dec.
  - decide equality.
    apply InterfaceHandle_eq_dec.
Defined.

(** The binding of the handler [s] on the interface [h]. *)
Definition is_binding (h : InterfaceHandle) (s : InterfaceEventHandler)
    (p : InterfaceHandle * InterfaceEventHandler) : bool :=
  (if InterfaceHandle_eq_dec (fst p) h then true else false) &&
  (if InterfaceEventHandler_eq_dec (snd p) s then true else false).

(** Modelled from the spec: [UnregisterSubscription] on an interface
    handle takes the binding back to unregistered, and fails with
    [StaleHandle] once the handle's snapshot has been superseded (the
    library's [UnregisterEvent] is missing from the sources). *)
Definition UnregisterSubscription (h : InterfaceHandle)
    (s : InterfaceEventHandler) (r : Registry InterfaceEventHandler)
  : Result unit * Registry InterfaceEventHandler :=
  if live r h then
    (Ok tt,
     {| epoch := epoch r; current := current r;
        interface_subscriptions :=
          filter (fun p => negb (is_binding h s p)) (interface_subscriptions r);
        system_subscriptions := system_subscriptions r |})
  else (Throw StaleHandle, r).

(** Modelled from the spec: [UnregisterSystemSubscription] detaches the
    bindings of a handler at system scope. *)
Definition UnregisterSystemSubscription (s : InterfaceEventHandler)
    (r : Registry InterfaceEventHandler)
  : Result unit * Registry InterfaceEventHandler :=
  (Ok tt,
   {| epoch := epoch r; current := current r;
      interface_subscriptions := interface_subscriptions r;
      system_subscriptions :=
        filter (fun s' => if InterfaceEventHandler_eq_dec s' s
                          then false else true)
               (system_subscriptions r) |}).

(** Modelled from the spec: [GetInterfaces(false)], the interface list
    as it is, with no enumeration. *)
Definition GetInterfacesAsIs (r : Registry InterfaceEventHandler)
  : Result (list InterfaceHandle) * Registry InterfaceEventHandler :=
  (Ok (issued r), r).

(** [m_system->GetCameras()]. *)
Definition SystemGetCameras : M (list DeviceIdentity) := library GetDevices.


(** The line that tells how many devices the system has. *)
Definition count_line (count : nat) : string :=
  ("	There " ++ (if Nat.eqb count 1 then "is " else "are ") ++
   show_index count ++
   (if Nat.eqb count 1 then " device " else " devices ") ++
   "on the system.")%string.

(** [InterfaceEventHandler::OnDeviceArrival]; the serial number is a
    [uint64_t]. *)
Definition OnDeviceArrival (this : InterfaceEventHandler)
    (deviceSerialNumber : Z) : M unit :=
  if m_registerToSystem this then
    cameras <- SystemGetCameras ;;
    let count := List.length cameras in
    print "Generic interface event handler:" ;;
    print (count_line count) ;;
    print ""
  else
    print "Interface event handler:" ;;
    print ("	Device " ++ put_dec deviceSerialNumber ++
           " has arrived on interface " ++ put_dec (m_interfaceNum this) ++ ".")%string ;;
    print "".

Section What.

(** The text of an exception, [e.what()]. *)
Variable what : Error -> string.


End What.

(** [SystemEventHandler::UnregisterInterfaceEventFromSystem]. *)
Definition UnregisterInterfaceEventFromSystem : M unit :=
  fun w =>
    match m_interfaceEventHandlerOnSystem w with
    | Some handler =>
        (library (fun _ => UnregisterSystemSubscription handler) ;;
         print "Interface event handler unregistered from system..." ;;
         (fun w' => (Done tt, with_handlerOnSystem None w'))) w
    | None => (Done tt, w)
    end.

(** The body of the loop of [UnregisterInterfaceEvents]. *)
Definition unregister_interface (interfaceList : list InterfaceHandle)
    (i : nat) : M unit :=
  pInterface <- GetByIndex interfaceList i ;;
  handler <- handler_at i ;;
  library (fun _ => UnregisterSubscription pInterface handler).

(** [SystemEventHandler::UnregisterInterfaceEvents]. *)
Definition UnregisterInterfaceEvents : M unit :=
  interfaceList <- library (fun _ => GetInterfacesAsIs) ;;
  let numInterfaces := List.length interfaceList in
  for_range numInterfaces 0 (unregister_interface interfaceList) ;;
  (fun w => (Done tt, with_handlers [] w)) ;;
  print "Event handler unregistered from interfaces...".

(** The bindings that [bindings] does not list. *)
Definition without (bindings subs : list (InterfaceHandle * InterfaceEventHandler))
  : list (InterfaceHandle * InterfaceEventHandler) :=
  filter (fun p => negb (existsb (fun b => is_binding (fst b) (snd b) p) bindings))
         subs.

(** The lines of a trace. *)
Definition printed (t : list Event) : list string :=
  flat_map (fun e => match e with
                     | Print line => [line]
                     | _ => []
                     end) t.



End DeviceEvents.

(** ** The handlers of [EnumerationEvents_C.c] *)

Module EnumerationEvents_C.

Import Format.
#[local] Open Scope list_scope.

(** [printf("%d", n)]. *)
Definition put_int (n : Z) : string :=
  DecimalString.NilZero.string_of_int (Z.to_int n).

(** [struct _userData]; a handle is the address of an interface object. *)
Record userData := {
  hInterface : Z;
  interfaceNum : Z
}.

(** What a handler does that can be seen from outside: a line on the
    standard output, or a call of a library function. *)
Inductive Event :=
| Printf (line : string)
| Call (function : string).



Definition onDeviceArrivalInterface (deviceSerialNumber : Z)
    (interfaceInfo : userData) : list Event :=
  [ Printf "Interface event handler:";
    Printf ("	Device " ++ put_dec (to_uint32 deviceSerialNumber) ++
            " has arrived on interface " ++ put_int (interfaceNum interfaceInfo)
            ++ ".")%string;
    Printf "" ].

Definition onDeviceRemovalInterface (deviceSerialNumber : Z)
    (interfaceInfo : userData) : list Event :=
  [ Printf "Interface event handler:";
    Printf ("	Device " ++ put_dec (to_uint32 deviceSerialNumber) ++
            " was removed from interface " ++ put_int (interfaceNum interfaceInfo)
            ++ ".")%string;
    Printf "" ].






Definition lines (t : list Event) : list string :=
  flat_map (fun e => match e with
                     | Printf line => [line]
                     | Call _ => []
                     end) t.





End EnumerationEvents_C.

(** * Properties *)

(** ** Address formatting *)

Module FormatFacts.

Import Format.

Lemma byte_at_range (v k : Z) : 0 <= byte_at v k < 256.
Proof.
  unfold byte_at.
  change 0xFF with (Z.ones 8).
  rewrite Z.land_ones by lia.
  apply Z.mod_pos_bound; lia.
Qed.

(** A byte cut out of the 32-bit conversion of [v] is the byte of [v]
    itself, as long as the mask stays inside the low 32 bits. *)
Lemma uint32_byte (v mask k : Z) :
  Z.land (Z.shiftr (Z.ones 32) k) (Z.shiftr mask k) = 0xFF ->
  Z.shiftr (Z.land (to_uint32 v) mask) k = byte_at v k.
Proof.
  intros Hmask.
  unfold to_uint32, byte_at.
  rewrite <- Z.land_ones by lia.
  rewrite !Z.shiftr_land, <- Z.land_assoc, Hmask.
  reflexivity.
Qed.

Lemma int64_byte (v mask k : Z) :
  Z.shiftr mask k = 0xFF ->
  Z.shiftr (Z.land v mask) k = byte_at v k.
Proof.
  intros Hmask.
  unfold byte_at.
  rewrite Z.shiftr_land, Hmask.
  reflexivity.
Qed.

Lemma byte_at_uint32 (v k : Z) :
  Z.land (Z.shiftr (Z.ones 32) k) 0xFF = 0xFF ->
  byte_at (to_uint32 v) k = byte_at v k.
Proof.
  intros Hk.
  unfold to_uint32, byte_at.
  rewrite <- Z.land_ones by lia.
  rewrite Z.shiftr_land, <- Z.land_assoc, Hk.
  reflexivity.
Qed.

(** The two-character field of the stream is the pair of digits of the
    byte: checked on each of the 256 bytes. *)
Lemma put_hex2_pair (b : Z) : 0 <= b < 256 -> put_hex2 b = hex_pair b.
Proof.
  intros Hb.
  assert (Hall : forallb
            (fun n => String.eqb (put_hex2 (Z.of_nat n)) (hex_pair (Z.of_nat n)))
            (seq 0 256) = true) by (vm_compute; reflexivity).
  rewrite forallb_forall in Hall.
  specialize (Hall (Z.to_nat b)).
  rewrite Z2Nat.id in Hall by lia.
  apply String.eqb_eq, Hall, in_seq.
  lia.
Qed.

Lemma replace_length (old new : ascii) (s : string) :
  String.length (replace old new s) = String.length s.
Proof.
  induction s as [|c r IH]; simpl; [reflexivity | now rewrite IH].
Qed.

Lemma replace_get (old new : ascii) (s : string) (i : nat) :
  String.get i (replace old new s) =
  option_map (fun c => if Ascii.eqb c old then new else c) (String.get i s).
Proof.
  revert i.
  induction s as [|c r IH]; intros [|i]; simpl; try reflexivity.
  apply IH.
Qed.

Lemma replace_twice (old new : ascii) (s : string) :
  Ascii.eqb new old = false ->
  replace old new (replace old new s) = replace old new s.
Proof.
  intros Hneq.
  induction s as [|c r IH]; simpl; [reflexivity|].
  rewrite IH.
  destruct (Ascii.eqb c old) eqn:Hc; [rewrite Hneq | rewrite Hc]; reflexivity.
Qed.

(** C5: for every integer [v] (so for every 64-bit one),
    [GetDottedAddress] gives the decimal values of the bytes of [v] at
    bits 24, 16, 8 and 0, joined by dots; only the low 32 bits of [v]
    count, and [0xC0A80101] gives [192.168.1.1]. *)
Theorem GetDottedAddress_dotted_quad :
  forall v : Z,
    GetDottedAddress v =
      (put_dec (Z.land (Z.shiftr v 24) 0xFF) ++ "." ++
       put_dec (Z.land (Z.shiftr v 16) 0xFF) ++ "." ++
       put_dec (Z.land (Z.shiftr v 8) 0xFF) ++ "." ++
       put_dec (Z.land v 0xFF))%string /\
    GetDottedAddress v = GetDottedAddress (v mod 2 ^ 32) /\
    GetDottedAddress 0xC0A80101 = "192.168.1.1".
Proof.
  intros v.
  assert (Hquad : forall u,
    GetDottedAddress u =
      (put_dec (byte_at u 24) ++ "." ++ put_dec (byte_at u 16) ++ "." ++
       put_dec (byte_at u 8) ++ "." ++ put_dec (byte_at u 0))%string).
  { intros u.
    unfold GetDottedAddress.
    rewrite !uint32_byte by reflexivity.
    rewrite <- (Z.shiftr_0_r (Z.land (to_uint32 u) 0xFF)).
    rewrite uint32_byte by reflexivity.
    reflexivity. }
  split; [|split].
  - rewrite Hquad.
    unfold byte_at.
    rewrite Z.shiftr_0_r.
    reflexivity.
  - rewrite (Hquad v), (Hquad (v mod 2 ^ 32)).
    change (v mod 2 ^ 32) with (to_uint32 v).
    rewrite !byte_at_uint32 by reflexivity.
    reflexivity.
  - vm_compute.
    reflexivity.
Qed.

(** C6: for every integer [v] (so for every 64-bit one),
    [GetMACAddress] gives six pairs of upper-case hexadecimal digits
    joined by colons, the bytes of [v] at bits 40, 32, 24, 16, 8 and 0,
    each with both digits written; [0x001122334455] gives
    [00:11:22:33:44:55]. *)
Theorem GetMACAddress_hex_pairs :
  forall v : Z,
    GetMACAddress v =
      (hex_pair (Z.land (Z.shiftr v 40) 0xFF) ++ ":" ++
       hex_pair (Z.land (Z.shiftr v 32) 0xFF) ++ ":" ++
       hex_pair (Z.land (Z.shiftr v 24) 0xFF) ++ ":" ++
       hex_pair (Z.land (Z.shiftr v 16) 0xFF) ++ ":" ++
       hex_pair (Z.land (Z.shiftr v 8) 0xFF) ++ ":" ++
       hex_pair (Z.land v 0xFF))%string /\
    String.length (GetMACAddress v) = 17%nat /\
    GetMACAddress 0x001122334455 = "00:11:22:33:44:55".
Proof.
  intros v.
  assert (Hpairs :
    GetMACAddress v =
      (hex_pair (byte_at v 40) ++ ":" ++ hex_pair (byte_at v 32) ++ ":" ++
       hex_pair (byte_at v 24) ++ ":" ++ hex_pair (byte_at v 16) ++ ":" ++
       hex_pair (byte_at v 8) ++ ":" ++ hex_pair (byte_at v 0))%string).
  { unfold GetMACAddress.
    rewrite !int64_byte by reflexivity.
    rewrite <- (Z.shiftr_0_r (Z.land v 0xFF)).
    rewrite int64_byte by reflexivity.
    rewrite !put_hex2_pair by apply byte_at_range.
    reflexivity. }
  split; [|split].
  - rewrite Hpairs.
    unfold byte_at.
    rewrite Z.shiftr_0_r.
    reflexivity.
  - rewrite Hpairs.
    reflexivity.
  - vm_compute.
    reflexivity.
Qed.

(** C7: for every string, the normalization keeps the length, turns each
    ['-'] into [':'] and keeps every other character where it is; the
    result is already normal, and [AA-BB-CC-DD-EE-FF] becomes
    [AA:BB:CC:DD:EE:FF], which is itself kept. *)
Theorem GetMACAddressStr_normalizes :
  forall s : string,
    String.length (GetMACAddressStr s) = String.length s /\
    (forall i : nat,
       String.get i (GetMACAddressStr s) =
       option_map (fun c => if Ascii.eqb c "-" then ":"%char else c)
                  (String.get i s)) /\
    GetMACAddressStr (GetMACAddressStr s) = GetMACAddressStr s /\
    GetMACAddressStr "AA-BB-CC-DD-EE-FF" = "AA:BB:CC:DD:EE:FF" /\
    GetMACAddressStr "AA:BB:CC:DD:EE:FF" = "AA:BB:CC:DD:EE:FF".
Proof.
  intros s.
  unfold GetMACAddressStr.
  repeat split.
  - apply replace_length.
  - intros i.
    apply replace_get.
  - apply replace_twice.
    reflexivity.
Qed.

End FormatFacts.

(** ** The configuration tool *)

Module GigEConfigFacts.

Import Format GigEConfig.
#[local] Open Scope list_scope.

(** [main] returns [0] when the switch set [bCommandIsValid], and
    otherwise prints the usage text last and returns [-1]. *)
Lemma main_run_command (system : System) (argv : list string) :
  main system argv =
    if snd (run_command system argv)
    then (banner ++ fst (run_command system argv), 0)
    else (banner ++ fst (run_command system argv) ++ Usage, -1).
Proof.
  unfold main.
  destruct (run_command system argv) as [done [|]]; reflexivity.
Qed.

Lemma respell_from_length (f : string -> string) (b : bool) (argv : list string) :
  List.length (respell_from f b argv) = List.length argv.
Proof.
  revert b.
  induction argv as [|a rest IH]; intros b; simpl; [reflexivity | now rewrite IH].
Qed.

(** Splitting on whether [a] is one of the given texts. *)
Ltac split_on a texts :=
  lazymatch texts with
  | nil => idtac
  | cons ?t ?rest =>
      destruct (String.eqb_spec a t);
      [subst a | split_on a rest]
  end.

Ltac not_a_flag a :=
  unfold lower_flag, upper_flag, is_flag;
  repeat match goal with
         | H : a <> ?t |- _ =>
             apply String.eqb_neq in H; rewrite ?H; clear H
         end.

Lemma is_flag_lower (a lo up : string) :
  In (lo, up) flag_table ->
  is_flag (lower_flag a) lo up = is_flag a lo up.
Proof.
  unfold flag_table.
  intros Hin.
  split_on a ["-A"; "-S"; "-M"; "-I"; "-N"; "-G"];
    [simpl in Hin; decompose [or] Hin; clear Hin;
     match goal with
     | H : False |- _ => destruct H
     | H : (_, _) = (_, _) |- _ => inversion H; subst; reflexivity
     end .. |].
  replace (lower_flag a) with a; [reflexivity|].
  not_a_flag a.
  reflexivity.
Qed.

Lemma is_flag_upper (a lo up : string) :
  In (lo, up) flag_table ->
  is_flag (upper_flag a) lo up = is_flag a lo up.
Proof.
  unfold flag_table.
  intros Hin.
  split_on a ["-a"; "-s"; "-m"; "-i"; "-n"; "-g"];
    [simpl in Hin; decompose [or] Hin; clear Hin;
     match goal with
     | H : False |- _ => destruct H
     | H : (_, _) = (_, _) |- _ => inversion H; subst; reflexivity
     end .. |].
  replace (upper_flag a) with a; [reflexivity|].
  not_a_flag a.
  reflexivity.
Qed.

Lemma read_option_respelled (f : string -> string)
    (argv argv' : list string) (i : nat) (o : Options) :
  flag_preserving f ->
  arg argv' i = f (arg argv i) ->
  arg argv' (i + 1) = arg argv (i + 1) ->
  read_option argv' i o = read_option argv i o.
Proof.
  intros Hf Hflag Hvalue.
  unfold read_option.
  rewrite Hflag, Hvalue.
  rewrite !Hf by (unfold flag_table; simpl; tauto).
  reflexivity.
Qed.

Lemma run_command_respelled (f : string -> string) (system : System)
    (argv : list string) :
  flag_preserving f ->
  run_command system (respell f argv) = run_command system argv.
Proof.
  intros Hf.
  unfold run_command, respell.
  rewrite respell_from_length.
  destruct argv as [|a0 [|a1 [|a2 [|a3 [|a4 [|a5 [|a6 [|a7 [|a8 [|a9 rest]]]]]]]]]];
    try reflexivity.
  - cbn [List.length respell_from negb arg nth].
    rewrite Hf by (unfold flag_table; simpl; tauto).
    reflexivity.
  - cbn [List.length respell_from negb arg nth].
    rewrite !Hf by (unfold flag_table; simpl; tauto).
    reflexivity.
  - cbn [List.length respell_from negb].
    cbn [read_options Nat.ltb Nat.leb List.length Nat.add].
    rewrite !(read_option_respelled f
                [a0; a1; a2; a3; a4; a5; a6; a7; a8]
                [a0; f a1; a2; f a3; a4; f a5; a6; f a7; a8])
      by (assumption || reflexivity).
    reflexivity.
Qed.

(** The chain of tests of [read_option] reads the flag as [flag_of]
    does. *)
Lemma read_option_flag (argv : list string) (i : nat) (o : Options) :
  read_option argv i o =
    match flag_of (arg argv i) with
    | Some FSerial =>
        {| serialNumber := arg argv (i + 1); macAddress := macAddress o;
           ipAddress := ipAddress o; subnetMask := subnetMask o;
           gateway := gateway o |}
    | Some FMac =>
        {| serialNumber := serialNumber o;
           macAddress := GetMACAddressStr (arg argv (i + 1));
           ipAddress := ipAddress o; subnetMask := subnetMask o;
           gateway := gateway o |}
    | Some FIp =>
        {| serialNumber := serialNumber o; macAddress := macAddress o;
           ipAddress := arg argv (i + 1); subnetMask := subnetMask o;
           gateway := gateway o |}
    | Some FMask =>
        {| serialNumber := serialNumber o; macAddress := macAddress o;
           ipAddress := ipAddress o; subnetMask := arg argv (i + 1);
           gateway := gateway o |}
    | Some FGateway =>
        {| serialNumber := serialNumber o; macAddress := macAddress o;
           ipAddress := ipAddress o; subnetMask := subnetMask o;
           gateway := arg argv (i + 1) |}
    | Some FAuto | None => o
    end.
Proof.
  unfold read_option, flag_of.
  repeat match goal with
         | |- context [if is_flag ?a ?lo ?up then _ else _] =>
             destruct (is_flag a lo up)
         end; reflexivity.
Qed.

Lemma auto_flag (a : string) :
  is_flag a "-a" "-A" = same_flag (flag_of a) (Some FAuto).
Proof.
  split_on a ["-a"; "-A"; "-s"; "-S"; "-m"; "-M";
              "-i"; "-I"; "-n"; "-N"; "-g"; "-G"]; try reflexivity.
  unfold flag_of.
  not_a_flag a.
  reflexivity.
Qed.

Lemma camera_flag (a : string) :
  is_camera (flag_of a) = is_flag a "-s" "-S" || is_flag a "-m" "-M".
Proof.
  split_on a ["-a"; "-A"; "-s"; "-S"; "-m"; "-M";
              "-i"; "-I"; "-n"; "-N"; "-g"; "-G"]; try reflexivity.
  unfold flag_of.
  not_a_flag a.
  reflexivity.
Qed.

Ltac split_conjuncts :=
  repeat match goal with
         | H : andb _ _ = true |- _ => apply andb_prop in H; destruct H
         end.

Ltac read_flag f :=
  destruct (flag_of f) as [[]|];
  cbn [is_camera is_address same_flag andb orb negb filter List.length
       Nat.add Nat.eqb fst snd] in * |-;
  try discriminate;
  cbn [serialNumber macAddress ipAddress subnetMask gateway no_options].

(** A well-formed request to force an address passes the test of
    [case 9]. *)
Lemma well_formed_request_valid (a0 f1 v1 f2 v2 f3 v3 f4 v4 : string) :
  well_formed_command [a0; f1; v1; f2; v2; f3; v3; f4; v4] = true ->
  options_valid
    (read_options 9 [a0; f1; v1; f2; v2; f3; v3; f4; v4] 1 no_options) = true.
Proof.
  intros H.
  cbn [read_options Nat.ltb Nat.leb List.length Nat.add].
  unfold well_formed_command, count_flag, pair_ok in H.
  cbn [forallb filter fst snd] in H.
  split_conjuncts.
  rewrite (read_option_flag _ 1); cbn [arg nth Nat.add]; read_flag f1;
    rewrite (read_option_flag _ 3); cbn [arg nth Nat.add]; read_flag f2;
    rewrite (read_option_flag _ 5); cbn [arg nth Nat.add]; read_flag f3;
    rewrite (read_option_flag _ 7); cbn [arg nth Nat.add]; read_flag f4;
    unfold options_valid;
    cbn [serialNumber macAddress ipAddress subnetMask gateway];
    repeat match goal with
           | Hv : negb (String.eqb ?v zeroIPAddress) = true |- _ =>
               rewrite Hv; clear Hv
           end;
    rewrite !andb_true_r;
    apply orb_true_iff; first [left; reflexivity | right; reflexivity].
Qed.

(** With a number of words other than nine on the command line, [main] returns [0] on
    the well-formed command lines and prints the usage text and returns
    [-1] on all others. *)
Lemma main_other_lengths (system : System) (argv : list string) :
  List.length argv <> 9%nat ->
  main system argv =
    if well_formed_command argv
    then (banner ++ fst (run_command system argv), 0)
    else (banner ++ Usage, -1).
Proof.
  intros Hlen.
  rewrite main_run_command.
  unfold run_command, well_formed_command.
  destruct argv as [|a0 [|a1 [|a2 [|a3 [|a4 [|a5 [|a6 [|a7 [|a8 [|a9 rest]]]]]]]]]];
    try reflexivity.
  - cbn [List.length arg nth].
    rewrite <- auto_flag.
    destruct (is_flag a1 "-a" "-A"); reflexivity.
  - cbn [List.length arg nth].
    rewrite camera_flag.
    destruct (is_flag a1 "-s" "-S"); [reflexivity|].
    destruct (is_flag a1 "-m" "-M"); reflexivity.
  - now elim Hlen.
Qed.

(** Every well-formed command line makes [main] return [0]. *)
Lemma main_accepts_well_formed (system : System) (argv : list string) :
  well_formed_command argv = true ->
  snd (main system argv) = 0.
Proof.
  intros Hwf.
  destruct (Nat.eq_dec (List.length argv) 9) as [Hlen|Hlen].
  - destruct argv as [|a0 [|a1 [|a2 [|a3 [|a4 [|a5 [|a6 [|a7 [|a8 [|a9 rest]]]]]]]]]];
      try discriminate Hlen.
    rewrite main_run_command.
    unfold run_command.
    cbn [List.length].
    rewrite well_formed_request_valid by assumption.
    reflexivity.
  - rewrite main_other_lengths, Hwf by assumption.
    reflexivity.
Qed.

(** The value returned is [0], or [-1] after the usage text. *)
Lemma main_exit_code (system : System) (argv : list string) :
  snd (main system argv) = 0 \/
  (snd (main system argv) = -1 /\
   exists done, fst (main system argv) = banner ++ done ++ Usage).
Proof.
  rewrite main_run_command.
  destruct (snd (run_command system argv)); [left; reflexivity|].
  right.
  split; [reflexivity|].
  now exists (fst (run_command system argv)).
Qed.

(** An interface of another type than GEV is left out of the listing. *)
Lemma QueryInterface_other_type (pInterface : Interface) :
  not_GEV pInterface = true -> QueryInterface pInterface = [].
Proof.
  intros H.
  unfold QueryInterface.
  now rewrite H.
Qed.

Lemma print_devices_block (camList : list Camera) (first i : nat)
    (pCamera : Camera) :
  nth_error camList i = Some pCamera ->
  exists before after,
    print_devices first camList =
      before ++
      Out ("** Device " ++ show_nat (first + i) ++ " **")%string ::
      PrintDeviceInfo pCamera ++ Out "" :: after.
Proof.
  revert first i.
  induction camList as [|c rest IH]; intros first [|i] Hnth;
    try discriminate Hnth.
  - injection Hnth as ->.
    exists [], (print_devices (S first) rest).
    rewrite Nat.add_0_r.
    reflexivity.
  - destruct (IH (S first) i Hnth) as (before & after & Heq).
    exists (Out ("** Device " ++ show_nat first ++ " **")%string ::
            PrintDeviceInfo c ++ Out "" :: before), after.
    cbn [print_devices].
    rewrite Heq, Nat.add_succ_r.
    cbn [Nat.add app].
    rewrite <- app_assoc.
    reflexivity.
Qed.

(** With no argument, [main] lists the cameras interface by interface
    and returns [0]: each interface that is GEV (or whose type cannot be
    read) has its banner, followed by a block for each of its cameras. *)
Lemma main_lists_interfaces (system : System) (prog : string) :
  main system [prog] = (banner ++ ListAllDeviceInfo system, 0) /\
  forall before pInterface after,
    system = before ++ pInterface :: after ->
    not_GEV pInterface = false ->
    ListAllDeviceInfo system =
      [Out "---> Listing all discoverable cameras..."; Out ""] ++
      flat_map QueryInterface before ++
      (interface_banner pInterface ::
       match GetCameras pInterface with
       | [] => [Out "No devices detected."; Out ""]
       | camList => print_devices 0 camList
       end) ++
      flat_map QueryInterface after.
Proof.
  split; [reflexivity|].
  intros before pInterface after -> Hgev.
  unfold ListAllDeviceInfo.
  rewrite flat_map_app.
  cbn [flat_map].
  unfold QueryInterface at 2.
  rewrite Hgev.
  reflexivity.
Qed.

(** The path of [case 9] that calls [ConfigureCamera]: the only thing done
    is to print that the operation is not supported, and [main] returns
    [0]. *)
Lemma main_configure_path (system : System) (argv : list string) :
  List.length argv = 9%nat ->
  options_valid (read_options 9 argv 1 no_options) = true ->
  main system argv = (banner ++ [Out not_supported_message], 0).
Proof.
  intros Hlen Hvalid.
  rewrite main_run_command.
  unfold run_command.
  rewrite Hlen, Hvalid.
  reflexivity.
Qed.

(** C8: the command line [GigEConfig a b c d e f g h] is not well-formed,
    yet [main] takes it for a request to force an address: it prints no
    usage text and returns [0]. *)
Theorem stray_words_accepted :
  forall system : System,
    well_formed_command stray_words = false /\
    main system stray_words = (banner ++ [Out not_supported_message], 0).
Proof.
  intros system.
  split; reflexivity.
Qed.

(** C9: a well-formed request to force an IP address, netmask and
    gateway (nine words on the command line) configures nothing: all
    [main] does after its banner is to print that forcing an address is
    not supported, no command is executed on any node, and the value
    returned is [0]. *)
Theorem forced_address_not_supported :
  forall (system : System) (argv : list string),
    List.length argv = 9%nat ->
    well_formed_command argv = true ->
    main system argv = (banner ++ [Out not_supported_message], 0) /\
    (forall node i, ~ In (Execute node i) (fst (main system argv))) /\
    snd (main system argv) = 0.
Proof.
  intros system argv Hlen Hwf.
  assert (Hmain : main system argv = (banner ++ [Out not_supported_message], 0)).
  { apply main_configure_path; [assumption|].
    destruct argv as [|a0 [|a1 [|a2 [|a3 [|a4 [|a5 [|a6 [|a7 [|a8 [|a9 rest]]]]]]]]]];
      try discriminate Hlen.
    now apply well_formed_request_valid. }
  rewrite Hmain.
  split; [reflexivity|].
  split; [|reflexivity].
  intros node i Hin.
  cbn in Hin.
  decompose [or] Hin; try discriminate; assumption.
Qed.

Lemma forced_address_not_supported_witness :
  List.length force_request = 9%nat /\
  well_formed_command force_request = true /\
  main [] force_request = (banner ++ [Out not_supported_message], 0).
Proof.
  split; [reflexivity|].
  split; [reflexivity|].
  apply (forced_address_not_supported [] force_request); reflexivity.
Defined.

(** The nine words of a request are read by their flags, whichever way
    the flags are spelled and in whatever order they come. *)
Lemma nine_words_by_serial (prog fs fi fn fg sv iv nv gv : string) :
  spelled "-s" "-S" fs -> spelled "-i" "-I" fi ->
  spelled "-n" "-N" fn -> spelled "-g" "-G" fg ->
  read_options 9 [prog; fs; sv; fi; iv; fn; nv; fg; gv] 1 no_options =
    {| serialNumber := sv; macAddress := ""; ipAddress := iv;
       subnetMask := nv; gateway := gv |}.
Proof.
  intros [-> | ->] [-> | ->] [-> | ->] [-> | ->]; reflexivity.
Qed.

Lemma nine_words_by_mac (prog fm fi fn fg mv iv nv gv : string) :
  spelled "-m" "-M" fm -> spelled "-i" "-I" fi ->
  spelled "-n" "-N" fn -> spelled "-g" "-G" fg ->
  read_options 9 [prog; fg; gv; fn; nv; fi; iv; fm; mv] 1 no_options =
    {| serialNumber := ""; macAddress := GetMACAddressStr mv; ipAddress := iv;
       subnetMask := nv; gateway := gv |}.
Proof.
  intros [-> | ->] [-> | ->] [-> | ->] [-> | ->]; reflexivity.
Qed.

(** What [case 9] does with options that were read. *)
Lemma main_nine_words (system : System) (argv : list string) (o : Options) :
  List.length argv = 9%nat ->
  read_options 9 argv 1 no_options = o ->
  main system argv =
    if options_valid o
    then (banner ++ [Out not_supported_message], 0)
    else (banner ++ Usage, -1).
Proof.
  intros Hlen Hread.
  rewrite main_run_command.
  unfold run_command.
  rewrite Hlen, Hread.
  destruct (options_valid o); reflexivity.
Qed.

(** C10: each flag is accepted in lower case and in upper case, and the
    same operation runs.  With [-a] or [-A] alone [main] runs
    [AutoConfigure]; with [-s] or [-S] and a value it lists the camera of
    that serial number, and with [-m] or [-M] the camera of that MAC
    address; each time it returns [0].  In a request of nine words [-s],
    [-m], [-i], [-n] and [-g], in either case and in any order, give the
    option of their name its value, and [main] answers as the values
    require: the usage text and [-1] when an address is [0.0.0.0], else
    the notice that forcing is not supported and [0].  Respelling the flags
    of any command line, all in lower case or all in upper case, changes
    neither what [main] does nor what it returns. *)
Theorem flag_case_is_immaterial :
  forall (system : System) (argv : list string)
         (prog fa fs fm fi fn fg value sv mv iv nv gv : string),
    spelled "-a" "-A" fa -> spelled "-s" "-S" fs -> spelled "-m" "-M" fm ->
    spelled "-i" "-I" fi -> spelled "-n" "-N" fn -> spelled "-g" "-G" fg ->
    main system [prog; fa] = (banner ++ AutoConfigure system, 0) /\
    main system [prog; fs; value] =
      (banner ++ ListDeviceInfoBySerial system value, 0) /\
    main system [prog; fm; value] =
      (banner ++ ListDeviceInfoByMAC system (GetMACAddressStr value), 0) /\
    read_options 9 [prog; fs; sv; fi; iv; fn; nv; fg; gv] 1 no_options =
      {| serialNumber := sv; macAddress := ""; ipAddress := iv;
         subnetMask := nv; gateway := gv |} /\
    read_options 9 [prog; fg; gv; fn; nv; fi; iv; fm; mv] 1 no_options =
      {| serialNumber := ""; macAddress := GetMACAddressStr mv;
         ipAddress := iv; subnetMask := nv; gateway := gv |} /\
    main system [prog; fs; sv; fi; iv; fn; nv; fg; gv] =
      (if String.eqb iv zeroIPAddress || String.eqb nv zeroIPAddress ||
          String.eqb gv zeroIPAddress
       then (banner ++ Usage, -1)
       else (banner ++ [Out not_supported_message], 0)) /\
    main system [prog; fg; gv; fn; nv; fi; iv; fm; mv] =
      (if String.eqb iv zeroIPAddress || String.eqb nv zeroIPAddress ||
          String.eqb gv zeroIPAddress
       then (banner ++ Usage, -1)
       else (banner ++ [Out not_supported_message], 0)) /\
    main system (respell lower_flag argv) = main system argv /\
    main system (respell upper_flag argv) = main system argv.
Proof.
  intros system argv prog fa fs fm fi fn fg value sv mv iv nv gv
    Ha Hs Hm Hi Hn Hg.
  pose proof (nine_words_by_serial prog fs fi fn fg sv iv nv gv Hs Hi Hn Hg)
    as Hserial.
  pose proof (nine_words_by_mac prog fm fi fn fg mv iv nv gv Hm Hi Hn Hg)
    as Hmac.
  split; [destruct Ha as [-> | ->]; reflexivity|].
  split; [destruct Hs as [-> | ->]; reflexivity|].
  split; [destruct Hm as [-> | ->]; reflexivity|].
  split; [exact Hserial|].
  split; [exact Hmac|].
  split.
  { rewrite (main_nine_words system [prog; fs; sv; fi; iv; fn; nv; fg; gv] _
               eq_refl Hserial).
    unfold options_valid.
    cbn [serialNumber macAddress ipAddress subnetMask gateway].
    destruct (String.eqb sv zeroSerial), (String.eqb iv zeroIPAddress),
      (String.eqb nv zeroIPAddress), (String.eqb gv zeroIPAddress);
      reflexivity. }
  split.
  { rewrite (main_nine_words system [prog; fg; gv; fn; nv; fi; iv; fm; mv] _
               eq_refl Hmac).
    unfold options_valid.
    cbn [serialNumber macAddress ipAddress subnetMask gateway].
    destruct (String.eqb (GetMACAddressStr mv) zeroMACAddress),
      (String.eqb iv zeroIPAddress),
      (String.eqb nv zeroIPAddress), (String.eqb gv zeroIPAddress);
      reflexivity. }
  unfold main.
  rewrite !run_command_respelled;
    [split; reflexivity | exact is_flag_upper | exact is_flag_lower].
Qed.

Lemma flag_case_is_immaterial_witness :
  spelled "-a" "-A" "-A" /\
  main [] ["GigEConfig"; "-A"] = (banner ++ AutoConfigure [], 0).
Proof.
  split; [right; reflexivity|].
  exact (proj1
    (flag_case_is_immaterial [] [] "GigEConfig" "-A" "-S" "-M" "-I" "-N" "-G"
       "17491073" "17491073" "00:B0:9D:0A:E5:C1"
       "192.168.1.10" "255.255.255.0" "192.168.1.1"
       (or_intror eq_refl) (or_intror eq_refl) (or_intror eq_refl)
       (or_intror eq_refl) (or_intror eq_refl) (or_intror eq_refl))).
Defined.

End GigEConfigFacts.

(** ** The topology registry *)

Module RegistryFacts.

Import Registry.
#[local] Open Scope list_scope.
#[local] Open Scope nat_scope.

Lemma issue_handles_nth (n i j : nat) (ports : list Port) :
  nth_error (issue_handles n i ports) j =
    option_map
      (fun p => {| origin := n;
                   identity := {| id := port_id p; index := i + j |};
                   interfaceType := port_type p;
                   attached := port_devices p |})
      (nth_error ports j).
Proof.
  revert i j.
  induction ports as [|p rest IH]; intros i [|j]; cbn; try reflexivity.
  - now rewrite Nat.add_0_r.
  - rewrite IH.
    now rewrite Nat.add_succ_r.
Qed.

Lemma issue_handles_origin (n i : nat) (ports : list Port) (h : InterfaceHandle) :
  In h (issue_handles n i ports) -> origin h = n.
Proof.
  revert i.
  induction ports as [|p rest IH]; intros i Hin; cbn in Hin; [easy|].
  destruct Hin as [<- | Hin]; [reflexivity | eauto].
Qed.

Lemma issue_handles_length (n i : nat) (ports : list Port) :
  List.length (issue_handles n i ports) = List.length ports.
Proof.
  revert i.
  induction ports as [|p rest IH]; intros i; cbn; [reflexivity | now rewrite IH].
Qed.

(** Among ports that report no identity twice, a reported device sits on
    one port, once. *)
Lemma unique_port (ports : list Port) (d : DeviceIdentity) :
  session_unique ports ->
  In d (flat_map port_devices ports) ->
  exists i p,
    nth_error ports i = Some p /\
    count_occ DeviceIdentity_eq_dec (port_devices p) d = 1 /\
    forall j q,
      nth_error ports j = Some q -> In d (port_devices q) -> j = i.
Proof.
  unfold session_unique.
  induction ports as [|p rest IH]; intros Hnodup Hin; cbn in *; [easy|].
  assert (Hhere := NoDup_app_remove_r _ _ Hnodup).
  assert (Hrest := NoDup_app_remove_l _ _ Hnodup).
  assert (Hcount : count_occ DeviceIdentity_eq_dec
                     (port_devices p ++ flat_map port_devices rest) d <= 1)
    by now apply NoDup_count_occ.
  rewrite count_occ_app in Hcount.
  apply in_app_or in Hin.
  destruct Hin as [Hin | Hin].
  - pose proof (proj1 (count_occ_In DeviceIdentity_eq_dec _ _) Hin) as Hpos.
    exists 0, p.
    split; [reflexivity|].
    split; [lia|].
    intros [|j] q Hq Hdq; [reflexivity|].
    cbn in Hq.
    assert (Hin' : In d (flat_map port_devices rest)).
    { apply in_flat_map.
      exists q.
      split; [eapply nth_error_In; eassumption | assumption]. }
    apply (count_occ_In DeviceIdentity_eq_dec) in Hin'.
    lia.
  - pose proof (proj1 (count_occ_In DeviceIdentity_eq_dec _ _) Hin) as Hpos.
    destruct (IH Hrest Hin) as (i & q & Hnth & Hone & Huniq).
    exists (S i), q.
    split; [assumption|].
    split; [assumption|].
    intros [|j] q' Hq' Hdq'.
    + cbn in Hq'.
      injection Hq' as <-.
      apply (count_occ_In DeviceIdentity_eq_dec) in Hdq'.
      lia.
    + f_equal.
      eapply Huniq; eassumption.
Qed.

Section Subscriptions.

Context {Sub : Type}.

Lemma Refresh_stamped (t : Transport) (r : Registry Sub) :
  stamped r -> stamped (snd (Refresh t r)).
Proof.
  intros Hr.
  destruct t as [ports|]; cbn; [|assumption].
  intros h Hin.
  cbn in Hin.
  now apply issue_handles_origin in Hin.
Qed.

Lemma Refresh_epoch (t : Transport) (r : Registry Sub) :
  epoch r <= epoch (snd (Refresh t r)).
Proof.
  destruct t; cbn; lia.
Qed.

Lemma apply_stamped (o : Op Sub) (r : Registry Sub) :
  stamped r -> stamped (apply o r).
Proof.
  intros Hr.
  destruct o as [t | t | t | h s | s]; cbn.
  - now apply Refresh_stamped.
  - unfold GetInterfaces.
    destruct (current r) eqn:Hcur; [assumption|].
    pose proof (Refresh_stamped t r Hr) as Hs.
    destruct (Refresh t r) as [[snap|e] r']; assumption.
  - unfold GetDevices.
    destruct (current r) eqn:Hcur; [assumption|].
    pose proof (Refresh_stamped t r Hr) as Hs.
    destruct (Refresh t r) as [[snap|e] r']; assumption.
  - unfold RegisterSubscription.
    destruct (live r h); assumption.
  - assumption.
Qed.

Lemma apply_epoch (o : Op Sub) (r : Registry Sub) :
  epoch r <= epoch (apply o r).
Proof.
  destruct o as [t | t | t | h s | s]; cbn.
  - apply Refresh_epoch.
  - unfold GetInterfaces.
    destruct (current r); [reflexivity|].
    pose proof (Refresh_epoch t r) as He.
    destruct (Refresh t r) as [[snap|e] r']; assumption.
  - unfold GetDevices.
    destruct (current r); [reflexivity|].
    pose proof (Refresh_epoch t r) as He.
    destruct (Refresh t r) as [[snap|e] r']; assumption.
  - unfold RegisterSubscription.
    destruct (live r h); reflexivity.
  - reflexivity.
Qed.

Lemma run_stamped (ops : list (Op Sub)) (r : Registry Sub) :
  stamped r -> stamped (run ops r).
Proof.
  revert r.
  induction ops as [|o rest IH]; intros r Hr; cbn; [assumption|].
  now apply IH, apply_stamped.
Qed.

Lemma run_epoch (ops : list (Op Sub)) (r : Registry Sub) :
  epoch r <= epoch (run ops r).
Proof.
  revert r.
  induction ops as [|o rest IH]; intros r; cbn; [reflexivity|].
  etransitivity; [apply apply_epoch | apply IH].
Qed.

Lemma initial_stamped : stamped (@initial Sub).
Proof.
  intros h [].
Qed.

(** A handle of the current snapshot takes a subscription. *)
Lemma register_on_current_handle (ops : list (Op Sub)) (h : InterfaceHandle) (s : Sub) :
  In h (issued (run ops initial)) ->
  fst (RegisterSubscription h s (run ops initial)) = Ok tt.
Proof.
  intros Hin.
  pose proof (run_stamped ops initial initial_stamped h Hin) as Horigin.
  unfold RegisterSubscription, live.
  unfold issued in Hin.
  destruct (current (run ops initial)); [|easy].
  rewrite Horigin, Nat.eqb_refl.
  reflexivity.
Qed.

End Subscriptions.

(** C3: take a handle the registry handed out, let a refresh succeed
    after that, and then let the client do anything at all; registering a
    subscription on the old handle then fails with [StaleHandle] and
    leaves the registry as it was. *)
Theorem register_on_stale_handle :
  forall (Sub : Type) (before after : list (Op Sub)) (ports : list Port)
         (h : InterfaceHandle) (s : Sub),
    In h (issued (run before initial)) ->
    RegisterSubscription h s
      (run after (snd (Refresh (Some ports) (run before initial)))) =
    (Throw StaleHandle,
     run after (snd (Refresh (Some ports) (run before initial)))).
Proof.
  intros Sub before after ports h s Hin.
  pose proof (run_stamped before initial initial_stamped h Hin) as Horigin.
  pose proof (run_epoch after (snd (Refresh (Some ports) (run before initial))))
    as Hlater.
  cbn [Refresh snd] in *.
  set (r := run after _) in *.
  cbn [epoch] in Hlater.
  unfold RegisterSubscription, live.
  destruct (current r); [|reflexivity].
  replace (origin h =? epoch r) with false; [reflexivity|].
  symmetry.
  apply Nat.eqb_neq.
  lia.
Qed.

Lemma register_on_stale_handle_witness :
  In sample_handle (issued (run [DoRefresh (Some sample_ports)] (@initial unit))) /\
  RegisterSubscription sample_handle tt
    (run [DoGetInterfaces None]
       (snd (Refresh (Some []) (run [DoRefresh (Some sample_ports)] initial)))) =
  (Throw StaleHandle,
   run [DoGetInterfaces None]
     (snd (Refresh (Some []) (run [DoRefresh (Some sample_ports)] initial)))).
Proof.
  split.
  - simpl.
    left.
    reflexivity.
  - apply (register_on_stale_handle unit [DoRefresh (Some sample_ports)]
             [DoGetInterfaces None] [] sample_handle tt).
    simpl.
    left.
    reflexivity.
Defined.

(** A snapshot taken from ports that report no device identity twice
    has no orphan and no duplicate.  The flattened list holds the devices
    of the interface handles and no others, and each device of the
    flattened list is on one interface handle of the snapshot, once in its
    sequence, and on no other. *)
Theorem snapshot_device_on_one_interface :
  forall (n : nat) (ports : list Port),
    session_unique ports ->
    (forall d,
       In d (devices (take_snapshot n ports)) <->
       exists h, In h (interfaces (take_snapshot n ports)) /\ In d (attached h)) /\
    (forall d,
       In d (devices (take_snapshot n ports)) ->
       exists i h,
         nth_error (interfaces (take_snapshot n ports)) i = Some h /\
         count_occ DeviceIdentity_eq_dec (attached h) d = 1 /\
         forall j h',
           nth_error (interfaces (take_snapshot n ports)) j = Some h' ->
           In d (attached h') -> j = i).
Proof.
  intros n ports Hunique.
  cbn [take_snapshot devices interfaces].
  split.
  - intros d.
    rewrite in_flat_map.
    split.
    + intros (p & Hp & Hd).
      apply In_nth_error in Hp as (j & Hj).
      eexists.
      split.
      * eapply nth_error_In with (n := j).
        rewrite issue_handles_nth, Hj.
        reflexivity.
      * assumption.
    + intros (h & Hh & Hd).
      apply In_nth_error in Hh as (j & Hj).
      rewrite issue_handles_nth in Hj.
      destruct (nth_error ports j) as [p|] eqn:Hp; [|discriminate Hj].
      injection Hj as <-.
      exists p.
      split; [eapply nth_error_In; eassumption | assumption].
  - intros d Hd.
    destruct (unique_port ports d Hunique Hd) as (i & p & Hp & Hone & Huniq).
    exists i.
    eexists.
    split; [rewrite issue_handles_nth, Hp; reflexivity|].
    split; [assumption|].
    intros j h' Hj Hd'.
    rewrite issue_handles_nth in Hj.
    destruct (nth_error ports j) as [q|] eqn:Hq; [|discriminate Hj].
    injection Hj as <-.
    eapply Huniq; eassumption.
Qed.

Lemma snapshot_device_on_one_interface_witness :
  session_unique sample_ports /\
  exists i h,
    nth_error (interfaces (take_snapshot 1 sample_ports)) i = Some h /\
    count_occ DeviceIdentity_eq_dec (attached h) sample_camera = 1 /\
    forall j h',
      nth_error (interfaces (take_snapshot 1 sample_ports)) j = Some h' ->
      In sample_camera (attached h') -> j = i.
Proof.
  assert (Hunique : session_unique sample_ports).
  { unfold session_unique.
    simpl.
    repeat constructor; simpl; intuition discriminate. }
  split; [exact Hunique|].
  apply (snapshot_device_on_one_interface 1 sample_ports Hunique).
  simpl.
  right; left.
  reflexivity.
Defined.





End RegistryFacts.

(** ** The event handlers *)

Module EnumerationEventsFacts.

Import Registry EnumerationEvents.
#[local] Open Scope list_scope.
#[local] Open Scope nat_scope.

Lemma nth_error_middle {A} (pre suf : list A) (x : A) :
  nth_error (pre ++ x :: suf) (List.length pre) = Some x.
Proof.
  rewrite nth_error_app2 by reflexivity.
  now rewrite Nat.sub_diag.
Qed.

Lemma nth_error_at {A} (l pre suf : list A) (x : A) :
  l = pre ++ x :: suf -> nth_error l (List.length pre) = Some x.
Proof.
  intros ->.
  apply nth_error_middle.
Qed.

Lemma nth_error_last {A} (l : list A) (x : A) (n : nat) :
  List.length l = n -> nth_error (l ++ [x]) n = Some x.
Proof.
  intros <-.
  apply nth_error_middle.
Qed.

Lemma calls_app (t u : list Event) : calls (t ++ u) = calls t ++ calls u.
Proof.
  apply filter_app.
Qed.

Lemma calls_registration_events (first : nat) (l : list InterfaceHandle) :
  calls (registration_events first l) = register_calls first l.
Proof.
  revert first.
  induction l as [|h rest IH]; intros first; [reflexivity|].
  cbn.
  f_equal.
  apply IH.
Qed.

Lemma handlers_for_length (first : nat) (l : list InterfaceHandle) :
  List.length (handlers_for first l) = List.length l.
Proof.
  revert first.
  induction l as [|h rest IH]; intros first; cbn; [reflexivity | now rewrite IH].
Qed.

(** Worlds are compared field by field, with the lists in one shape. *)
Ltac fields :=
  unfold with_trace, with_system, with_handlers, with_handlerOnSystem in *;
  cbn [with_trace with_system with_handlers with_handlerOnSystem
       trace transport system m_interfaceEventHandlers
       m_interfaceEventHandlerOnSystem epoch current
       interface_subscriptions system_subscriptions fst snd] in *;
  repeat rewrite <- app_assoc in *;
  cbn [app] in *.

(** The loop over the cameras only prints. *)
Lemma show_camera_loop (interfaceID : string) (cameraList : list DeviceIdentity) :
  forall (suf pre : list DeviceIdentity) (w : World),
    cameraList = pre ++ suf ->
    exists out,
      for_range (List.length suf) (List.length pre)
        (show_camera interfaceID cameraList) w =
        (Done tt, with_trace (trace w ++ out) w) /\
      calls out = [].
Proof.
  induction suf as [|d rest IH]; intros pre w Hlist.
  - exists [].
    split; [|reflexivity].
    destruct w.
    cbn.
    now rewrite app_nil_r.
  - destruct w as [t r hos hs tr].
    destruct (IH (pre ++ [d])
                {| transport := t; system := r;
                   m_interfaceEventHandlerOnSystem := hos;
                   m_interfaceEventHandlers := hs;
                   trace := tr ++
                     [Print ("	Device " ++ show_serial d ++
                             " is connected to interface " ++ interfaceID ++ ".")%string;
                      Print ""] |})
      as (out & Hrun & Hcalls).
    { now rewrite <- app_assoc. }
    exists (Print ("	Device " ++ show_serial d ++
                   " is connected to interface " ++ interfaceID ++ ".")%string ::
            Print "" :: out).
    split; [|exact Hcalls].
    rewrite length_app, Nat.add_1_r in Hrun.
    cbn [List.length for_range].
    unfold bind at 1.
    unfold show_camera at 1, bind, GetByIndex, print, emit.
    rewrite (nth_error_at _ _ _ _ Hlist).
    fields.
    exact Hrun.
Qed.

(** So does the loop of [OnInterfaceArrival] over the interface list. *)
Lemma show_arrived_loop (interfaceID : string)
    (interfaceList : list InterfaceHandle) :
  forall (suf pre : list InterfaceHandle) (w : World),
    interfaceList = pre ++ suf ->
    exists out,
      for_range (List.length suf) (List.length pre)
        (show_arrived interfaceID interfaceList) w =
        (Done tt, with_trace (trace w ++ out) w) /\
      calls out = [].
Proof.
  induction suf as [|h rest IH]; intros pre w Hlist.
  - exists [].
    split; [|reflexivity].
    destruct w.
    cbn.
    now rewrite app_nil_r.
  - cbn [List.length for_range].
    unfold bind at 1.
    unfold show_arrived at 1, bind, GetByIndex.
    rewrite (nth_error_at _ _ _ _ Hlist).
    destruct (negb (interfaceID =? id (identity h))%string).
    + destruct (IH (pre ++ [h]) w) as (out & Hrun & Hcalls).
      { now rewrite <- app_assoc. }
      rewrite length_app, Nat.add_1_r in Hrun.
      exists out.
      split; assumption.
    + destruct (show_camera_loop interfaceID (attached h) (attached h) [] w eq_refl)
        as (shown & Hshown & Hprints).
      cbn [List.length] in Hshown.
      rewrite Hshown.
      destruct (IH (pre ++ [h]) (with_trace (trace w ++ shown) w))
        as (out & Hrun & Hcalls).
      { now rewrite <- app_assoc. }
      rewrite length_app, Nat.add_1_r in Hrun.
      exists (shown ++ out).
      split.
      * rewrite Hrun.
        destruct w.
        fields.
        reflexivity.
      * now rewrite calls_app, Hprints, Hcalls.
Qed.

(** The loop of [RegisterInterfaceEvents] over handles of the current
    snapshot: each gets its handler, registered on it. *)
Lemma register_interface_loop (interfaceList : list InterfaceHandle) :
  forall (suf pre : list InterfaceHandle) (w : World),
    interfaceList = pre ++ suf ->
    List.length (m_interfaceEventHandlers w) = List.length pre ->
    current (system w) <> None ->
    (forall h, In h suf -> origin h = epoch (system w)) ->
    for_range (List.length suf) (List.length pre)
      (register_interface interfaceList) w =
    (Done tt,
     {| transport := transport w;
        system :=
          {| epoch := epoch (system w);
             current := current (system w);
             interface_subscriptions :=
               interface_subscriptions (system w) ++
               combine suf (handlers_for (List.length pre) suf);
             system_subscriptions := system_subscriptions (system w) |};
        m_interfaceEventHandlerOnSystem := m_interfaceEventHandlerOnSystem w;
        m_interfaceEventHandlers :=
          m_interfaceEventHandlers w ++ handlers_for (List.length pre) suf;
        trace := trace w ++ registration_events (List.length pre) suf |}).
Proof.
  induction suf as [|h rest IH]; intros pre w Hlist Hlen Hcur Horigin.
  - destruct w as [t [e c subs ssubs] hos hs tr].
    cbn.
    now rewrite !app_nil_r.
  - destruct w as [t [e c subs ssubs] hos hs tr].
    fields.
    cbn [List.length for_range].
    unfold bind at 1.
    unfold register_interface at 1, bind, GetByIndex.
    rewrite (nth_error_at _ _ _ _ Hlist).
    fields.
    unfold handler_at.
    fields.
    rewrite (nth_error_last hs _ _ Hlen).
    unfold RegisterEvent, print, bind, emit, library, RegisterSubscription, live.
    fields.
    destruct c as [snap|]; [|now elim Hcur].
    rewrite (Horigin h (or_introl eq_refl)), Nat.eqb_refl.
    fields.
    replace (S (List.length pre)) with (List.length (pre ++ [h]))
      by (rewrite length_app, Nat.add_1_r; reflexivity).
    rewrite (IH (pre ++ [h])).
    + fields.
      rewrite length_app, Nat.add_1_r.
      cbn [handlers_for combine registration_events].
      reflexivity.
    + now rewrite <- app_assoc.
    + fields.
      rewrite !length_app, Hlen.
      reflexivity.
    + fields.
      discriminate.
    + fields.
      intros h' Hin.
      apply Horigin.
      now right.
Qed.

Lemma RegisterInterfaceEvents_runs (w : World) (snap : TopologySnapshot) :
  current (system w) = Some snap ->
  (forall h, In h (interfaces snap) -> origin h = epoch (system w)) ->
  RegisterInterfaceEvents w =
  (Done tt,
   {| transport := transport w;
      system :=
        {| epoch := epoch (system w);
           current := current (system w);
           interface_subscriptions :=
             interface_subscriptions (system w) ++
             combine (interfaces snap) (handlers_for 0 (interfaces snap));
           system_subscriptions := system_subscriptions (system w) |};
      m_interfaceEventHandlerOnSystem := m_interfaceEventHandlerOnSystem w;
      m_interfaceEventHandlers := handlers_for 0 (interfaces snap);
      trace := trace w ++ CallGetInterfaces ::
               registration_events 0 (interfaces snap) ++ [Print ""] |}).
Proof.
  intros Hcur Horigin.
  destruct w as [t [e c subs ssubs] hos hs tr].
  fields.
  subst c.
  unfold RegisterInterfaceEvents.
  unfold bind at 1.
  assert (Hcleared :
    (match hs with
     | [] => (Done tt, {| transport := t;
                          system := {| epoch := e; current := Some snap;
                                       interface_subscriptions := subs;
                                       system_subscriptions := ssubs |};
                          m_interfaceEventHandlerOnSystem := hos;
                          m_interfaceEventHandlers := hs; trace := tr |})
     | _ :: _ => (Done tt, with_handlers []
                         {| transport := t;
                            system := {| epoch := e; current := Some snap;
                                         interface_subscriptions := subs;
                                         system_subscriptions := ssubs |};
                            m_interfaceEventHandlerOnSystem := hos;
                            m_interfaceEventHandlers := hs; trace := tr |})
     end) =
    (Done tt, {| transport := t;
                 system := {| epoch := e; current := Some snap;
                              interface_subscriptions := subs;
                              system_subscriptions := ssubs |};
                 m_interfaceEventHandlerOnSystem := hos;
                 m_interfaceEventHandlers := []; trace := tr |}))
    by (destruct hs; reflexivity).
  fields.
  rewrite Hcleared.
  unfold bind at 1.
  unfold SystemGetInterfaces, bind, emit, library, GetInterfaces.
  fields.
  rewrite (register_interface_loop (interfaces snap) (interfaces snap) []);
    [| reflexivity | reflexivity | discriminate | exact Horigin].
  unfold print, emit.
  fields.
  reflexivity.
Qed.

Lemma RegisterInterfaceEventToSystem_runs (w : World) :
  RegisterInterfaceEventToSystem w =
  (Done tt,
   {| transport := transport w;
      system :=
        {| epoch := epoch (system w);
           current := current (system w);
           interface_subscriptions := interface_subscriptions (system w);
           system_subscriptions :=
             system_subscriptions (system w) ++ [handler_on_system w] |};
      m_interfaceEventHandlerOnSystem := Some (handler_on_system w);
      m_interfaceEventHandlers := m_interfaceEventHandlers w;
      trace := trace w ++ [CallRegisterInterfaceEvent (handler_on_system w)] |}).
Proof.
  destruct w as [t [e c subs ssubs] [handler|] hs tr]; reflexivity.
Qed.

Lemma UpdateInterfaceList_runs (w : World) (ports : list Port) :
  transport w = Some ports ->
  UpdateInterfaceList w =
  (Done tt,
   {| transport := transport w;
      system :=
        {| epoch := S (epoch (system w));
           current := Some (take_snapshot (S (epoch (system w))) ports);
           interface_subscriptions := [];
           system_subscriptions := system_subscriptions (system w) |};
      m_interfaceEventHandlerOnSystem := m_interfaceEventHandlerOnSystem w;
      m_interfaceEventHandlers := m_interfaceEventHandlers w;
      trace := trace w ++ [CallUpdateInterfaceList] |}).
Proof.
  intros Htransport.
  destruct w as [t [e c subs ssubs] hos hs tr].
  fields.
  subst t.
  reflexivity.
Qed.

Lemma registered_all (first : nat) (l : list InterfaceHandle) (h : InterfaceHandle) :
  In h l -> exists handler, In (h, handler) (combine l (handlers_for first l)).
Proof.
  revert first.
  induction l as [|x rest IH]; intros first Hin; [easy|].
  destruct Hin as [-> | Hin].
  - eexists.
    left.
    reflexivity.
  - destruct (IH (S first) Hin) as (handler & Hhandler).
    exists handler.
    right.
    exact Hhandler.
Qed.

(** What [OnInterfaceRemoval] leaves behind. *)
Lemma OnInterfaceRemoval_runs (interfaceID : string) (w : World)
    (ports : list Port) :
  transport w = Some ports ->
  OnInterfaceRemoval interfaceID w =
  (Done tt,
   {| transport := transport w;
      system :=
        {| epoch := S (epoch (system w));
           current := Some (take_snapshot (S (epoch (system w))) ports);
           interface_subscriptions :=
             combine (issue_handles (S (epoch (system w))) 0 ports)
               (handlers_for 0 (issue_handles (S (epoch (system w))) 0 ports));
           system_subscriptions :=
             system_subscriptions (system w) ++ [handler_on_system w] |};
      m_interfaceEventHandlerOnSystem := Some (handler_on_system w);
      m_interfaceEventHandlers :=
        handlers_for 0 (issue_handles (S (epoch (system w))) 0 ports);
      trace :=
        trace w ++
        [Print "System event handler:";
         Print ("	Interface " ++ interfaceID ++ " was removed from the system.")%string;
         Print "";
         CallUpdateInterfaceList;
         CallRegisterInterfaceEvent (handler_on_system w);
         CallGetInterfaces] ++
        registration_events 0 (issue_handles (S (epoch (system w))) 0 ports) ++
        [Print ""] |}).
Proof.
  intros Htransport.
  unfold OnInterfaceRemoval, print.
  unfold bind at 1 2 3.
  unfold emit.
  unfold bind at 1.
  rewrite (UpdateInterfaceList_runs _ ports) by exact Htransport.
  unfold bind at 1.
  rewrite RegisterInterfaceEventToSystem_runs.
  rewrite (RegisterInterfaceEvents_runs _
             (take_snapshot (S (epoch (system w))) ports));
    [| reflexivity
     | intros h Hin; apply RegistryFacts.issue_handles_origin in Hin; exact Hin].
  destruct w as [t [e c subs ssubs] hos hs tr].
  unfold handler_on_system.
  fields.
  reflexivity.
Qed.

(** What [OnInterfaceArrival] leaves behind; [shown] is what it prints
    about the cameras of the arrived interface. *)
Lemma OnInterfaceArrival_runs (interfaceID : string) (w : World)
    (ports : list Port) :
  transport w = Some ports ->
  exists shown,
    calls shown = [] /\
    OnInterfaceArrival interfaceID w =
    (Done tt,
     {| transport := transport w;
        system :=
          {| epoch := S (epoch (system w));
             current := Some (take_snapshot (S (epoch (system w))) ports);
             interface_subscriptions :=
               combine (issue_handles (S (epoch (system w))) 0 ports)
                 (handlers_for 0 (issue_handles (S (epoch (system w))) 0 ports));
             system_subscriptions :=
               system_subscriptions (system w) ++ [handler_on_system w] |};
        m_interfaceEventHandlerOnSystem := Some (handler_on_system w);
        m_interfaceEventHandlers :=
          handlers_for 0 (issue_handles (S (epoch (system w))) 0 ports);
        trace :=
          trace w ++
          [Print "System event handler:";
           Print ("	Interface " ++ interfaceID ++ " has arrived on the system.")%string;
           Print "";
           CallUpdateInterfaceList;
           CallGetInterfaces] ++
          shown ++
          [CallRegisterInterfaceEvent (handler_on_system w);
           CallGetInterfaces] ++
          registration_events 0 (issue_handles (S (epoch (system w))) 0 ports) ++
          [Print ""] |}).
Proof.
  intros Htransport.
  unfold OnInterfaceArrival, print.
  unfold bind at 1 2 3.
  unfold emit.
  unfold bind at 1.
  rewrite (UpdateInterfaceList_runs _ ports) by exact Htransport.
  unfold bind at 1.
  unfold SystemGetInterfaces, bind at 1, emit, library, GetInterfaces.
  fields.
  unfold bind at 1.
  match goal with
  | |- context [for_range _ 0 ?body ?w1] =>
      destruct (show_arrived_loop interfaceID
                  (issue_handles (S (epoch (system w))) 0 ports)
                  (issue_handles (S (epoch (system w))) 0 ports) [] w1 eq_refl)
        as (shown & Hshown & Hprints)
  end.
  exists shown.
  split; [exact Hprints|].
  cbn [take_snapshot interfaces] in *.
  change (List.length (@nil InterfaceHandle)) with 0 in Hshown.
  rewrite Hshown.
  unfold bind at 1.
  rewrite RegisterInterfaceEventToSystem_runs.
  rewrite (RegisterInterfaceEvents_runs _
             (take_snapshot (S (epoch (system w))) ports));
    [| reflexivity
     | intros h Hin; apply RegistryFacts.issue_handles_origin in Hin; exact Hin].
  destruct w as [t [e c subs ssubs] hos hs tr].
  unfold handler_on_system.
  fields.
  reflexivity.
Qed.

(** When the transport layer cannot be queried the refresh throws, and
    the handler ends by that exception with the registry as it was. *)
Lemma handler_raises_when_unreachable (handler : string -> M unit)
    (interfaceID : string) (w : World) :
  In handler [OnInterfaceArrival; OnInterfaceRemoval] ->
  transport w = None ->
  fst (handler interfaceID w) = Raised EnumerationError /\
  system (snd (handler interfaceID w)) = system w.
Proof.
  intros Hhandler Htransport.
  destruct w as [t r hos hs tr].
  fields.
  subst t.
  destruct Hhandler as [<- | [<- | []]]; split; reflexivity.
Qed.

(** At the level of the handlers, [RegisterEvent] on a handle that is not
    of the current snapshot ends by the [StaleHandle] exception: the call is
    made, nothing is registered. *)
Lemma RegisterEvent_not_live (pInterface : InterfaceHandle)
    (handler : InterfaceEventHandler) (w : World) :
  live (system w) pInterface = false ->
  RegisterEvent pInterface handler w =
  (Raised StaleHandle,
   with_trace (trace w ++ [CallRegisterEvent pInterface handler]) w).
Proof.
  intros Hlive.
  destruct w as [t r hos hs tr].
  unfold RegisterEvent, bind, emit, library, RegisterSubscription.
  fields.
  rewrite Hlive.
  destruct r.
  reflexivity.
Qed.

(** C2: when the transport layer can be queried, [OnInterfaceArrival]
    and [OnInterfaceRemoval] both return, and the calls they make into the
    library are, in this order: [UpdateInterfaceList]; then calls that
    neither refresh nor register on an interface; then [GetInterfaces],
    which reads the new list; then one [RegisterEvent] for each interface
    of that list.  The new list is the one just enumerated, and when the
    handler returns each of its interfaces has an interface-scope
    subscription. *)
Theorem interface_event_refresh_then_resubscribe :
  forall (handler : string -> M unit) (interfaceID : string) (w : World)
         (ports : list Port),
    In handler [OnInterfaceArrival; OnInterfaceRemoval] ->
    transport w = Some ports ->
    exists (w' : World) (between : list Event),
      handler interfaceID w = (Done tt, w') /\
      issued (system w') = issue_handles (S (epoch (system w))) 0 ports /\
      calls (trace w') =
        calls (trace w) ++
        CallUpdateInterfaceList :: between ++
        CallGetInterfaces :: register_calls 0 (issued (system w')) /\
      existsb is_refresh_or_register between = false /\
      (forall h, In h (issued (system w')) -> subscribed w' h).
Proof.
  intros handler interfaceID w ports Hhandler Htransport.
  destruct Hhandler as [<- | [<- | []]].
  - destruct (OnInterfaceArrival_runs interfaceID w ports Htransport)
      as (shown & Hprints & Hrun).
    eexists.
    exists [CallGetInterfaces; CallRegisterInterfaceEvent (handler_on_system w)].
    split; [exact Hrun|].
    split; [reflexivity|].
    split; [|split; [reflexivity|]].
    + fields.
      rewrite calls_app.
      cbn [calls filter is_call].
      rewrite !filter_app.
      fold (calls shown).
      rewrite Hprints.
      cbn [filter is_call app].
      rewrite filter_app.
      fold (calls (registration_events 0
                     (issue_handles (S (epoch (system w))) 0 ports))).
      rewrite calls_registration_events.
      cbn [filter is_call].
      rewrite app_nil_r.
      reflexivity.
    + intros h Hin.
      apply registered_all.
      exact Hin.
  - eexists.
    exists [CallRegisterInterfaceEvent (handler_on_system w)].
    split; [apply OnInterfaceRemoval_runs; exact Htransport|].
    split; [reflexivity|].
    split; [|split; [reflexivity|]].
    + fields.
      rewrite calls_app.
      cbn [calls filter is_call].
      rewrite filter_app.
      fold (calls (registration_events 0
                     (issue_handles (S (epoch (system w))) 0 ports))).
      rewrite calls_registration_events.
      cbn [filter is_call].
      rewrite app_nil_r.
      reflexivity.
    + intros h Hin.
      apply registered_all.
      exact Hin.
Qed.

Lemma interface_event_refresh_then_resubscribe_witness :
  In OnInterfaceRemoval [OnInterfaceArrival; OnInterfaceRemoval] /\
  transport sample_world = Some sample_ports /\
  exists (w' : World) (between : list Event),
    OnInterfaceRemoval "eth0" sample_world = (Done tt, w') /\
    issued (system w') = issue_handles 1 0 sample_ports /\
    calls (trace w') =
      calls (trace sample_world) ++
      CallUpdateInterfaceList :: between ++
      CallGetInterfaces :: register_calls 0 (issued (system w')) /\
    existsb is_refresh_or_register between = false /\
    (forall h, In h (issued (system w')) -> subscribed w' h).
Proof.
  split; [simpl; right; left; reflexivity|].
  split; [reflexivity|].
  apply (interface_event_refresh_then_resubscribe
           OnInterfaceRemoval "eth0" sample_world sample_ports).
  - simpl.
    right; left.
    reflexivity.
  - reflexivity.
Defined.

End EnumerationEventsFacts.

(** ** Address formatting: what the text tells about the number *)

Module FormatRoundTrip.

Import Format GigEConfigNotions.
Import FormatFacts.

Lemma byte_at_div (v k : Z) : 0 <= k -> byte_at v k = (v / 2 ^ k) mod 256.
Proof.
  intros Hk.
  unfold byte_at.
  change 0xFF with (Z.ones 8).
  rewrite Z.land_ones by lia.
  rewrite Z.shiftr_div_pow2 by lia.
  reflexivity.
Qed.

Ltac powers :=
  change (2 ^ 48) with 281474976710656 in *;
  change (2 ^ 40) with 1099511627776 in *;
  change (2 ^ 32) with 4294967296 in *;
  change (2 ^ 24) with 16777216 in *;
  change (2 ^ 16) with 65536 in *;
  change (2 ^ 8) with 256 in *;
  change (2 ^ 0) with 1 in *.

(** The low 32 bits of a number are its four low bytes. *)
Lemma low32_bytes (v : Z) :
  v mod 2 ^ 32 =
  byte_at v 24 * 2 ^ 24 + byte_at v 16 * 2 ^ 16 + byte_at v 8 * 2 ^ 8 +
  byte_at v 0.
Proof.
  rewrite !byte_at_div by lia.
  powers.
  Z.to_euclidean_division_equations; lia.
Qed.

(** The low 48 bits of a number are its six low bytes. *)
Lemma low48_bytes (v : Z) :
  v mod 2 ^ 48 =
  byte_at v 40 * 2 ^ 40 + byte_at v 32 * 2 ^ 32 + byte_at v 24 * 2 ^ 24 +
  byte_at v 16 * 2 ^ 16 + byte_at v 8 * 2 ^ 8 + byte_at v 0.
Proof.
  rewrite !byte_at_div by lia.
  powers.
  Z.to_euclidean_division_equations; lia.
Qed.

Lemma byte_at_low (v k n : Z) :
  0 <= k -> k + 8 <= n -> byte_at (v mod 2 ^ n) k = byte_at v k.
Proof.
  intros Hk Hn.
  unfold byte_at.
  apply Z.bits_inj'.
  intros i Hi.
  rewrite !Z.land_spec, !Z.shiftr_spec by lia.
  destruct (Z.ltb_spec i 8) as [Hlow | Hhigh].
  - rewrite Z.mod_pow2_bits_low by lia.
    reflexivity.
  - change 0xFF with (Z.ones 8).
    rewrite Z.ones_spec_high by lia.
    now rewrite !andb_false_r.
Qed.

Lemma GetDottedAddress_bytes (v : Z) :
  GetDottedAddress v =
    (put_dec (byte_at v 24) ++ "." ++ put_dec (byte_at v 16) ++ "." ++
     put_dec (byte_at v 8) ++ "." ++ put_dec (byte_at v 0))%string.
Proof.
  unfold GetDottedAddress.
  rewrite !uint32_byte by reflexivity.
  rewrite <- (Z.shiftr_0_r (Z.land (to_uint32 v) 0xFF)).
  rewrite uint32_byte by reflexivity.
  reflexivity.
Qed.

Lemma GetMACAddress_bytes (v : Z) :
  GetMACAddress v =
    (hex_pair (byte_at v 40) ++ ":" ++ hex_pair (byte_at v 32) ++ ":" ++
     hex_pair (byte_at v 24) ++ ":" ++ hex_pair (byte_at v 16) ++ ":" ++
     hex_pair (byte_at v 8) ++ ":" ++ hex_pair (byte_at v 0))%string.
Proof.
  unfold GetMACAddress.
  rewrite !int64_byte by reflexivity.
  rewrite <- (Z.shiftr_0_r (Z.land v 0xFF)).
  rewrite int64_byte by reflexivity.
  rewrite !put_hex2_pair by apply byte_at_range.
  reflexivity.
Qed.

(** The decimal text of a number tells the number. *)
Lemma put_dec_inj (a b : Z) :
  0 <= a -> 0 <= b -> put_dec a = put_dec b -> a = b.
Proof.
  intros Ha Hb Heq.
  unfold put_dec in Heq.
  assert (Hnonnil : forall n, N.to_uint n <> Decimal.Nil).
  { intros [|p]; [discriminate|].
    apply Stdlib.Numbers.DecimalPos.Unsigned.to_uint_nonnil. }
  apply (f_equal DecimalString.NilZero.uint_of_string) in Heq.
  rewrite !DecimalString.NilZero.usu in Heq by apply Hnonnil.
  injection Heq as Heq.
  apply Stdlib.Numbers.DecimalN.Unsigned.to_uint_inj in Heq.
  apply Z2N.inj; assumption.
Qed.

(** A byte prints as one to three decimal digits. *)
Lemma put_dec_byte (b : Z) :
  0 <= b < 256 ->
  all_chars is_decimal_digit (put_dec b) = true /\
  (1 <= String.length (put_dec b) <= 3)%nat.
Proof.
  intros Hb.
  assert (Hall : forallb
            (fun n =>
               all_chars is_decimal_digit (put_dec (Z.of_nat n)) &&
               Nat.leb 1 (String.length (put_dec (Z.of_nat n))) &&
               Nat.leb (String.length (put_dec (Z.of_nat n))) 3)
            (seq 0 256) = true) by (vm_compute; reflexivity).
  rewrite forallb_forall in Hall.
  specialize (Hall (Z.to_nat b)).
  rewrite Z2Nat.id in Hall by lia.
  assert (Hin : In (Z.to_nat b) (seq 0 256)) by (apply in_seq; lia).
  apply Hall in Hin.
  apply andb_prop in Hin as [Hin Hmax].
  apply andb_prop in Hin as [Hdigits Hmin].
  apply Nat.leb_le in Hmin, Hmax.
  auto.
Qed.

(** Two texts that end at the same dot are the same up to the dot. *)
Lemma same_up_to_dot (a a' r r' : string) :
  all_chars is_decimal_digit a = true ->
  all_chars is_decimal_digit a' = true ->
  (a ++ String "." r)%string = (a' ++ String "." r')%string ->
  a = a' /\ r = r'.
Proof.
  revert a'.
  induction a as [|c a IH]; intros [|c' a'] Ha Ha' Heq; cbn in *.
  - now injection Heq.
  - injection Heq as <- _.
    discriminate Ha'.
  - injection Heq as -> _.
    discriminate Ha.
  - injection Heq as <- Heq.
    apply andb_prop in Ha as [_ Ha].
    apply andb_prop in Ha' as [_ Ha'].
    destruct (IH a' Ha Ha' Heq) as [-> ->].
    split; reflexivity.
Qed.

Lemma string_length_app (a b : string) :
  String.length (a ++ b) = (String.length a + String.length b)%nat.
Proof.
  induction a as [|c a IH]; cbn; [reflexivity | now rewrite IH].
Qed.

Lemma all_chars_app (p : ascii -> bool) (a b : string) :
  all_chars p (a ++ b) = all_chars p a && all_chars p b.
Proof.
  induction a as [|c a IH]; cbn; [reflexivity|].
  now rewrite IH, andb_assoc.
Qed.

Lemma all_chars_weaken (p q : ascii -> bool) (s : string) :
  (forall c, p c = true -> q c = true) ->
  all_chars p s = true -> all_chars q s = true.
Proof.
  intros Hpq.
  induction s as [|c s IH]; cbn; [reflexivity|].
  intros H.
  apply andb_prop in H as [Hc Hs].
  now rewrite (Hpq c Hc), IH.
Qed.

Lemma all_chars_get (p : ascii -> bool) (s : string) (i : nat) (c : ascii) :
  all_chars p s = true -> String.get i s = Some c -> p c = true.
Proof.
  revert i.
  induction s as [|x s IH]; intros i Hall Hget; [discriminate Hget|].
  cbn in Hall.
  apply andb_prop in Hall as [Hx Hs].
  destruct i as [|i]; cbn in Hget.
  - now injection Hget as <-.
  - eauto.
Qed.

Lemma hex_digit_upper_inj (d d' : Z) :
  0 <= d < 16 -> 0 <= d' < 16 ->
  hex_digit_upper d = hex_digit_upper d' -> d = d'.
Proof.
  intros Hd Hd' Heq.
  assert (Hcases : forall x, 0 <= x < 16 ->
            In x [0; 1; 2; 3; 4; 5; 6; 7; 8; 9; 10; 11; 12; 13; 14; 15]).
  { intros x Hx.
    cbn.
    lia. }
  apply Hcases in Hd, Hd'.
  cbn in Hd, Hd'.
  decompose [or] Hd; decompose [or] Hd'; subst;
    try reflexivity; try discriminate Heq; contradiction.
Qed.

Lemma hex_pair_inj (b b' : Z) :
  0 <= b < 256 -> 0 <= b' < 256 -> hex_pair b = hex_pair b' -> b = b'.
Proof.
  intros Hb Hb' Heq.
  unfold hex_pair in Heq.
  injection Heq as Hhigh Hlow.
  apply hex_digit_upper_inj in Hhigh, Hlow;
    Z.to_euclidean_division_equations; lia.
Qed.

Lemma hex_pair_chars (b : Z) :
  0 <= b < 256 -> all_chars is_mac_char (hex_pair b) = true.
Proof.
  intros Hb.
  assert (Hall : forallb
            (fun n => all_chars is_mac_char (hex_pair (Z.of_nat n)))
            (seq 0 256) = true) by (vm_compute; reflexivity).
  rewrite forallb_forall in Hall.
  specialize (Hall (Z.to_nat b)).
  rewrite Z2Nat.id in Hall by lia.
  apply Hall, in_seq.
  lia.
Qed.

(** X1: two numbers give the same dotted address exactly when their low
    32 bits are the same. *)
Theorem GetDottedAddress_same_text :
  forall u v : Z,
    GetDottedAddress u = GetDottedAddress v <-> u mod 2 ^ 32 = v mod 2 ^ 32.
Proof.
  intros u v.
  split.
  - rewrite !GetDottedAddress_bytes.
    intros Heq.
    pose proof (byte_at_range u 24) as Hu3.
    pose proof (byte_at_range u 16) as Hu2.
    pose proof (byte_at_range u 8) as Hu1.
    pose proof (byte_at_range u 0) as Hu0.
    pose proof (byte_at_range v 24) as Hv3.
    pose proof (byte_at_range v 16) as Hv2.
    pose proof (byte_at_range v 8) as Hv1.
    pose proof (byte_at_range v 0) as Hv0.
    apply same_up_to_dot in Heq as [H3 Heq];
      [| now apply put_dec_byte | now apply put_dec_byte].
    apply same_up_to_dot in Heq as [H2 Heq];
      [| now apply put_dec_byte | now apply put_dec_byte].
    apply same_up_to_dot in Heq as [H1 H0];
      [| now apply put_dec_byte | now apply put_dec_byte].
    apply put_dec_inj in H3, H2, H1, H0; try lia.
    rewrite (low32_bytes u), (low32_bytes v).
    congruence.
  - intros Heq.
    rewrite !GetDottedAddress_bytes.
    rewrite <- (byte_at_low u 24 32), <- (byte_at_low u 16 32),
      <- (byte_at_low u 8 32), <- (byte_at_low u 0 32) by lia.
    rewrite Heq.
    rewrite !byte_at_low by lia.
    reflexivity.
Qed.

Lemma same_mac_text (u v : Z) :
  GetMACAddress u = GetMACAddress v <-> u mod 2 ^ 48 = v mod 2 ^ 48.
Proof.
  split.
  - rewrite !GetMACAddress_bytes.
    intros Heq.
    pose proof (byte_at_range u 40) as Hu5.
    pose proof (byte_at_range u 32) as Hu4.
    pose proof (byte_at_range u 24) as Hu3.
    pose proof (byte_at_range u 16) as Hu2.
    pose proof (byte_at_range u 8) as Hu1.
    pose proof (byte_at_range u 0) as Hu0.
    pose proof (byte_at_range v 40) as Hv5.
    pose proof (byte_at_range v 32) as Hv4.
    pose proof (byte_at_range v 24) as Hv3.
    pose proof (byte_at_range v 16) as Hv2.
    pose proof (byte_at_range v 8) as Hv1.
    pose proof (byte_at_range v 0) as Hv0.
    assert (H5 : hex_pair (byte_at u 40) = hex_pair (byte_at v 40))
      by (unfold hex_pair in *; cbn [append] in Heq; congruence).
    assert (H4 : hex_pair (byte_at u 32) = hex_pair (byte_at v 32))
      by (unfold hex_pair in *; cbn [append] in Heq; congruence).
    assert (H3 : hex_pair (byte_at u 24) = hex_pair (byte_at v 24))
      by (unfold hex_pair in *; cbn [append] in Heq; congruence).
    assert (H2 : hex_pair (byte_at u 16) = hex_pair (byte_at v 16))
      by (unfold hex_pair in *; cbn [append] in Heq; congruence).
    assert (H1 : hex_pair (byte_at u 8) = hex_pair (byte_at v 8))
      by (unfold hex_pair in *; cbn [append] in Heq; congruence).
    assert (H0 : hex_pair (byte_at u 0) = hex_pair (byte_at v 0))
      by (unfold hex_pair in *; cbn [append] in Heq; congruence).
    apply hex_pair_inj in H5, H4, H3, H2, H1, H0; try lia.
    rewrite (low48_bytes u), (low48_bytes v).
    congruence.
  - intros Heq.
    rewrite !GetMACAddress_bytes.
    rewrite <- (byte_at_low u 40 48), <- (byte_at_low u 32 48),
      <- (byte_at_low u 24 48), <- (byte_at_low u 16 48),
      <- (byte_at_low u 8 48), <- (byte_at_low u 0 48) by lia.
    rewrite Heq.
    rewrite !byte_at_low by lia.
    reflexivity.
Qed.

(** X2: two numbers give the same MAC address text exactly when their
    low 48 bits are the same. *)
Theorem GetMACAddress_same_text :
  forall u v : Z,
    GetMACAddress u = GetMACAddress v <-> u mod 2 ^ 48 = v mod 2 ^ 48.
Proof.
  exact same_mac_text.
Qed.

(** X3: a dotted address has 7 to 15 characters, all of them decimal
    digits or dots. *)
Theorem GetDottedAddress_shape :
  forall v : Z,
    (7 <= String.length (GetDottedAddress v) <= 15)%nat /\
    all_chars (one_of "0123456789.") (GetDottedAddress v) = true.
Proof.
  intros v.
  rewrite GetDottedAddress_bytes.
  destruct (put_dec_byte _ (byte_at_range v 24)) as [D3 L3].
  destruct (put_dec_byte _ (byte_at_range v 16)) as [D2 L2].
  destruct (put_dec_byte _ (byte_at_range v 8)) as [D1 L1].
  destruct (put_dec_byte _ (byte_at_range v 0)) as [D0 L0].
  assert (Hweak : forall c, is_decimal_digit c = true ->
                            one_of "0123456789." c = true).
  { intros c Hc.
    unfold is_decimal_digit, one_of in *.
    cbn in *.
    repeat (apply orb_prop in Hc as [Hc | Hc]; [rewrite Hc, ?orb_true_r; reflexivity|]).
    discriminate Hc. }
  split.
  - rewrite !string_length_app.
    cbn [String.length].
    lia.
  - rewrite !all_chars_app.
    rewrite (all_chars_weaken _ _ _ Hweak D3), (all_chars_weaken _ _ _ Hweak D2),
      (all_chars_weaken _ _ _ Hweak D1), (all_chars_weaken _ _ _ Hweak D0).
    reflexivity.
Qed.

(** A MAC address text has only upper-case hexadecimal digits and
    colons. *)
Lemma GetMACAddress_chars (v : Z) :
  all_chars is_mac_char (GetMACAddress v) = true.
Proof.
  rewrite GetMACAddress_bytes.
  rewrite !all_chars_app.
  rewrite !hex_pair_chars by apply byte_at_range.
  reflexivity.
Qed.

Lemma GetMACAddress_length (v : Z) :
  String.length (GetMACAddress v) = 17%nat.
Proof.
  rewrite GetMACAddress_bytes.
  reflexivity.
Qed.

End FormatRoundTrip.

(** ** The configuration tool: what it prints, executes and rejects *)

Module GigEConfigBehaviour.

Import Format GigEConfig GigEConfigNotions.
Import GigEConfigFacts.
#[local] Open Scope list_scope.

Lemma commands_app (a b : list Effect) :
  commands (a ++ b) = commands a ++ commands b.
Proof.
  apply flat_map_app.
Qed.

Lemma commands_print_node {A} (label : string) (show : A -> string)
    (node : option A) :
  commands (print_node label show node) = [].
Proof.
  destruct node; reflexivity.
Qed.

Lemma commands_PrintDeviceInfo (c : Camera) : commands (PrintDeviceInfo c) = [].
Proof.
  unfold PrintDeviceInfo.
  rewrite !commands_app, !commands_print_node.
  destruct (Init c); [|reflexivity..].
  now rewrite !commands_app, !commands_print_node.
Qed.

Lemma commands_print_devices (i : nat) (camList : list Camera) :
  commands (print_devices i camList) = [].
Proof.
  revert i.
  induction camList as [|c rest IH]; intros i; [reflexivity|].
  cbn [print_devices].
  change (Out ("** Device " ++ show_nat i ++ " **")%string ::
          PrintDeviceInfo c ++ Out "" :: print_devices (S i) rest)
    with ([Out ("** Device " ++ show_nat i ++ " **")%string] ++
          PrintDeviceInfo c ++ [Out ""] ++ print_devices (S i) rest).
  now rewrite !commands_app, commands_PrintDeviceInfo, IH.
Qed.

Lemma commands_QueryInterface (p : Interface) : commands (QueryInterface p) = [].
Proof.
  unfold QueryInterface.
  destruct (not_GEV p); [reflexivity|].
  destruct (GetCameras p) as [|c rest] eqn:Hcams;
    [unfold interface_banner; destruct (InterfaceDisplayName p); reflexivity|].
  change (interface_banner p :: print_devices 0 (c :: rest))
    with ([interface_banner p] ++ print_devices 0 (c :: rest)).
  rewrite commands_app, commands_print_devices.
  unfold interface_banner.
  destruct (InterfaceDisplayName p); reflexivity.
Qed.

Lemma commands_ListAllDeviceInfo (system : System) :
  commands (ListAllDeviceInfo system) = [].
Proof.
  unfold ListAllDeviceInfo.
  cbn [commands flat_map app].
  fold (commands (flat_map QueryInterface system)).
  induction system as [|p rest IH]; [reflexivity|].
  cbn [flat_map].
  now rewrite commands_app, commands_QueryInterface, IH.
Qed.

Lemma commands_ListDeviceInfoBySerial (system : System) (serial : string) :
  commands (ListDeviceInfoBySerial system serial) = [].
Proof.
  unfold ListDeviceInfoBySerial.
  destruct (GetBySerial (SystemGetCameras system) serial); [|reflexivity].
  cbn [commands flat_map app].
  fold (commands (PrintDeviceInfo c ++ [Out ""])).
  now rewrite commands_app, commands_PrintDeviceInfo.
Qed.

(** The loop of [ListDeviceInfoByMAC]: a block for each camera that
    passes the test, and whether there was one. *)
Lemma scan_by_mac_blocks (macAddress : string) (camList : list Camera)
    (bCameraFound : bool) :
  scan_by_mac macAddress camList bCameraFound =
    (found_blocks (mac_matches macAddress) camList,
     bCameraFound || existsb (mac_matches macAddress) camList).
Proof.
  revert bCameraFound.
  induction camList as [|c rest IH]; intros found.
  - cbn.
    now rewrite orb_false_r.
  - cbn [scan_by_mac found_blocks flat_map existsb].
    unfold mac_matches at 1 3.
    destruct (GevDeviceMACAddress c) as [v|].
    + destruct (GetMACAddress v =? macAddress)%string.
      * rewrite IH.
        unfold found_block.
        rewrite <- app_assoc.
        cbn.
        now rewrite orb_true_r.
      * rewrite IH.
        reflexivity.
    + rewrite IH.
      reflexivity.
Qed.

Lemma ListDeviceInfoByMAC_blocks (system : System) (macAddress : string) :
  ListDeviceInfoByMAC system macAddress =
    [Out "---> Listing device info from MAC Address..."; Out ""] ++
    found_blocks (mac_matches macAddress) (SystemGetCameras system) ++
    (if existsb (mac_matches macAddress) (SystemGetCameras system)
     then []
     else [Out ("--> Could not discover camera with MAC address: " ++
                macAddress)%string]).
Proof.
  unfold ListDeviceInfoByMAC.
  rewrite scan_by_mac_blocks.
  cbn [orb app].
  destruct (existsb (mac_matches macAddress) (SystemGetCameras system));
    [now rewrite app_nil_r | reflexivity].
Qed.

Lemma commands_found_blocks (test : Camera -> bool) (camList : list Camera) :
  commands (found_blocks test camList) = [].
Proof.
  induction camList as [|c rest IH]; [reflexivity|].
  unfold found_blocks in *.
  cbn [flat_map].
  rewrite commands_app, IH.
  destruct (test c); [|reflexivity].
  unfold found_block.
  now rewrite commands_app, commands_PrintDeviceInfo.
Qed.

Lemma commands_ListDeviceInfoByMAC (system : System) (macAddress : string) :
  commands (ListDeviceInfoByMAC system macAddress) = [].
Proof.
  rewrite ListDeviceInfoByMAC_blocks.
  rewrite !commands_app, commands_found_blocks.
  destruct (existsb _ _); reflexivity.
Qed.

(** The commands of the loop of [AutoConfigure]. *)
Lemma commands_force_interfaces (first : nat) (interfaceList : list Interface)
    (node : string) (i : nat) :
  In (node, i) (commands (force_interfaces first interfaceList)) <->
  node = "AutoForceIP" /\
  exists j p,
    i = (first + j)%nat /\ nth_error interfaceList j = Some p /\
    forced p = true.
Proof.
  revert first.
  induction interfaceList as [|p rest IH]; intros first.
  - cbn.
    split; [easy|].
    intros (_ & [|j] & q & _ & Hnth & _); discriminate Hnth.
  - cbn [force_interfaces].
    rewrite commands_app, in_app_iff, IH.
    unfold forced at 2.
    split.
    + intros [Hhere | (Hnode & j & q & -> & Hnth & Hq)].
      * destruct (not_GEV p) eqn:Hgev; [destruct Hhere|].
        destruct (AutoForceIP p) eqn:Hforce.
        -- unfold interface_banner in Hhere.
           destruct (InterfaceDisplayName p); cbn in Hhere;
             destruct Hhere as [[= <- <-] | []];
             (split; [reflexivity|]);
             exists 0%nat, p;
             rewrite Nat.add_0_r;
             unfold forced;
             rewrite Hgev, Hforce;
             auto.
        -- unfold interface_banner in Hhere.
           destruct (InterfaceDisplayName p); cbn in Hhere; destruct Hhere.
      * split; [assumption|].
        exists (S j), q.
        rewrite Nat.add_succ_r.
        auto.
    + intros (Hnode & [|j] & q & -> & Hnth & Hq).
      * left.
        cbn in Hnth.
        injection Hnth as <-.
        unfold forced in Hq.
        apply andb_prop in Hq as [Hgev Hforce].
        apply negb_true_iff in Hgev.
        rewrite Hgev, Hforce, Nat.add_0_r, Hnode.
        unfold interface_banner.
        destruct (InterfaceDisplayName p); cbn; auto.
      * right.
        split; [assumption|].
        exists j, q.
        rewrite Nat.add_succ_r.
        auto.
Qed.

Lemma commands_force_interfaces_from (first : nat)
    (interfaceList : list Interface) (node : string) (i : nat) :
  In (node, i) (commands (force_interfaces first interfaceList)) ->
  (first <= i)%nat.
Proof.
  intros Hin.
  apply commands_force_interfaces in Hin as (_ & j & p & -> & _).
  lia.
Qed.

Lemma commands_force_interfaces_NoDup (first : nat)
    (interfaceList : list Interface) :
  NoDup (commands (force_interfaces first interfaceList)).
Proof.
  revert first.
  induction interfaceList as [|p rest IH]; intros first; [constructor|].
  cbn [force_interfaces].
  rewrite commands_app.
  apply NoDup_app; [| apply IH |].
  - destruct (not_GEV p); [constructor|].
    unfold interface_banner.
    destruct (InterfaceDisplayName p), (AutoForceIP p); cbn;
      repeat constructor; intros [].
  - intros [node i] Hhere Hlater.
    apply commands_force_interfaces_from in Hlater.
    destruct (not_GEV p); [destruct Hhere|].
    unfold interface_banner in Hhere.
    destruct (InterfaceDisplayName p), (AutoForceIP p); cbn in Hhere;
      try destruct Hhere as [[= _ <-] | []]; try destruct Hhere; lia.
Qed.

Lemma commands_AutoConfigure (system : System) :
  commands (AutoConfigure system) = commands (force_interfaces 0 system).
Proof.
  unfold AutoConfigure.
  rewrite !commands_app.
  cbn.
  now rewrite app_nil_r.
Qed.

(** A rejected command line does nothing. *)
Lemma run_command_rejected (system : System) (argv : list string) :
  snd (run_command system argv) = false -> fst (run_command system argv) = [].
Proof.
  unfold run_command.
  destruct argv as [|a0 [|a1 [|a2 [|a3 [|a4 [|a5 [|a6 [|a7 [|a8 [|a9 rest]]]]]]]]]];
    cbn [List.length]; try reflexivity; try discriminate.
  - destruct (is_flag _ _ _); [discriminate | reflexivity].
  - destruct (is_flag _ "-s" "-S"); [discriminate|].
    destruct (is_flag _ "-m" "-M"); [discriminate | reflexivity].
  - destruct (options_valid _); [discriminate | reflexivity].
Qed.

Lemma run_command_lengths (system : System) (argv : list string) :
  snd (run_command system argv) = true ->
  In (List.length argv) [1; 2; 3; 9]%nat.
Proof.
  unfold run_command.
  destruct argv as [|a0 [|a1 [|a2 [|a3 [|a4 [|a5 [|a6 [|a7 [|a8 [|a9 rest]]]]]]]]]];
    cbn [List.length]; try discriminate; intros _; cbn; auto.
Qed.

(** X4: [main] returns [0], or it returns [-1] and then all it has done
    is to print its banner and the usage text; it returns [0] only for 1,
    2, 3 or 9 words on the command line. *)
Theorem main_rejects_cleanly :
  forall (system : System) (argv : list string),
    (main system argv = (banner ++ Usage, -1) \/
     snd (main system argv) = 0 /\
     In (List.length argv) [1; 2; 3; 9]%nat) /\
    (snd (main system argv) = 0 \/ snd (main system argv) = -1).
Proof.
  intros system argv.
  rewrite main_run_command.
  destruct (snd (run_command system argv)) eqn:Hvalid.
  - split; [right | left; reflexivity].
    split; [reflexivity|].
    now apply (run_command_lengths system).
  - split; [left | right; reflexivity].
    now rewrite run_command_rejected.
Qed.

(** X5: the only command [main] ever executes on a node is [AutoForceIP],
    and only when the command line is [-a] (or [-A]) alone; the interface
    is then one that is GEV, or of a type that cannot be read, and whose
    [AutoForceIP] node can be written. *)
Theorem main_executes_only_when_asked :
  forall (system : System) (argv : list string) (node : string) (i : nat),
    In (node, i) (commands (fst (main system argv))) ->
    List.length argv = 2%nat /\
    is_flag (arg argv 1) "-a" "-A" = true /\
    node = "AutoForceIP" /\
    exists pInterface,
      nth_error system i = Some pInterface /\ forced pInterface = true.
Proof.
  intros system argv node i Hin.
  rewrite main_run_command in Hin.
  assert (Hdone : In (node, i) (commands (fst (run_command system argv)))).
  { destruct (snd (run_command system argv)); cbn [fst] in Hin;
      rewrite !commands_app in Hin; cbn in Hin;
      rewrite ?app_nil_r in Hin; exact Hin. }
  clear Hin.
  unfold run_command in Hdone.
  destruct argv as [|a0 [|a1 [|a2 [|a3 [|a4 [|a5 [|a6 [|a7 [|a8 [|a9 rest]]]]]]]]]];
    cbn [List.length fst] in Hdone; try (destruct Hdone; fail).
  - now rewrite commands_ListAllDeviceInfo in Hdone.
  - cbn [arg nth] in *.
    destruct (is_flag a1 "-a" "-A") eqn:Hflag; [|destruct Hdone].
    cbn [fst] in Hdone.
    rewrite commands_AutoConfigure in Hdone.
    apply commands_force_interfaces in Hdone as (Hnode & j & p & -> & Hnth & Hp).
    repeat split; try assumption.
    now exists p.
  - destruct (is_flag _ "-s" "-S").
    + cbn [fst] in Hdone.
      now rewrite commands_ListDeviceInfoBySerial in Hdone.
    + destruct (is_flag _ "-m" "-M"); [|destruct Hdone].
      cbn [fst] in Hdone.
      now rewrite commands_ListDeviceInfoByMAC in Hdone.
  - destruct (options_valid _); destruct Hdone.
Qed.

Lemma main_executes_only_when_asked_witness :
  In ("AutoForceIP", 0%nat)
     (commands (fst (main sample_system ["GigEConfig"; "-A"]))) /\
  exists pInterface,
    nth_error sample_system 0 = Some pInterface /\ forced pInterface = true.
Proof.
  assert (Hin : In ("AutoForceIP", 0%nat)
                   (commands (fst (main sample_system ["GigEConfig"; "-A"]))))
    by (vm_compute; left; reflexivity).
  split; [exact Hin|].
  apply (main_executes_only_when_asked sample_system ["GigEConfig"; "-A"]
           "AutoForceIP" 0 Hin).
Defined.

(** X6: [AutoConfigure] executes [AutoForceIP] on the interface of index
    [i] exactly when that interface is GEV, or of a type that cannot be
    read, and its [AutoForceIP] node can be written; it executes nothing
    else, and nothing twice. *)
Theorem AutoConfigure_forces_each_interface_once :
  forall (system : System) (node : string) (i : nat),
    (In (node, i) (commands (AutoConfigure system)) <->
     node = "AutoForceIP" /\
     exists pInterface,
       nth_error system i = Some pInterface /\ forced pInterface = true) /\
    NoDup (commands (AutoConfigure system)).
Proof.
  intros system node i.
  rewrite commands_AutoConfigure.
  split; [|apply commands_force_interfaces_NoDup].
  rewrite commands_force_interfaces.
  split.
  - intros (Hnode & j & p & -> & Hnth & Hp).
    split; [assumption|].
    now exists p.
  - intros (Hnode & p & Hnth & Hp).
    split; [assumption|].
    now exists i, p.
Qed.

Lemma mac_matches_has_mac (v : Z) (c : Camera) :
  mac_matches (GetMACAddress v) c = has_mac v c.
Proof.
  unfold mac_matches, has_mac.
  destruct (GevDeviceMACAddress c) as [u|]; [|reflexivity].
  destruct (String.eqb_spec (GetMACAddress u) (GetMACAddress v)) as [Heq | Hneq];
    destruct (Z.eqb_spec (u mod 2 ^ 48) (v mod 2 ^ 48)) as [Hmod | Hmod];
    try reflexivity.
  - now apply FormatRoundTrip.same_mac_text in Heq.
  - now apply FormatRoundTrip.same_mac_text in Hmod.
Qed.

Lemma found_blocks_ext (test test' : Camera -> bool) (camList : list Camera) :
  (forall c, test c = test' c) ->
  found_blocks test camList = found_blocks test' camList /\
  existsb test camList = existsb test' camList.
Proof.
  intros Hext.
  induction camList as [|c rest [IHb IHe]]; [split; reflexivity|].
  unfold found_blocks in *.
  cbn [flat_map existsb].
  now rewrite Hext, IHb, IHe.
Qed.

Lemma mac_flag_is_not_serial (flag : string) :
  is_flag flag "-m" "-M" = true -> is_flag flag "-s" "-S" = false.
Proof.
  unfold is_flag.
  intros H.
  apply orb_prop in H as [H | H]; apply String.eqb_eq in H; subst; reflexivity.
Qed.

(** X7: [-m] with a MAC address as the tool prints it, its bytes
    separated by colons or by dashes, prints the information of every
    camera whose MAC address node has the same low 48 bits, in the order
    of the camera list, or else the text that none was found; [main]
    returns [0] either way. *)
Theorem mac_lookup_finds_the_printed_address :
  forall (system : System) (prog flag text : string) (v : Z),
    is_flag flag "-m" "-M" = true ->
    GetMACAddressStr text = GetMACAddress v ->
    main system [prog; flag; text] =
      (banner ++
       [Out "---> Listing device info from MAC Address..."; Out ""] ++
       found_blocks (has_mac v) (SystemGetCameras system) ++
       (if existsb (has_mac v) (SystemGetCameras system)
        then []
        else [Out ("--> Could not discover camera with MAC address: " ++
                   GetMACAddress v)%string]),
       0).
Proof.
  intros system prog flag text v Hflag Htext.
  rewrite main_run_command.
  unfold run_command.
  cbn [List.length arg nth].
  rewrite (mac_flag_is_not_serial flag Hflag), Hflag, Htext.
  cbn [fst snd].
  rewrite ListDeviceInfoByMAC_blocks.
  destruct (found_blocks_ext (mac_matches (GetMACAddress v)) (has_mac v)
              (SystemGetCameras system) (mac_matches_has_mac v)) as [-> ->].
  reflexivity.
Qed.

Lemma mac_lookup_finds_the_printed_address_witness :
  main sample_system ["GigEConfig"; "-M"; "00-11-22-33-44-55"] =
    (banner ++
     [Out "---> Listing device info from MAC Address..."; Out ""] ++
     found_blocks (has_mac 0x001122334455) (SystemGetCameras sample_system) ++
     (if existsb (has_mac 0x001122334455) (SystemGetCameras sample_system)
      then []
      else [Out ("--> Could not discover camera with MAC address: " ++
                 GetMACAddress 0x001122334455)%string]),
     0) /\
  existsb (has_mac 0x001122334455) (SystemGetCameras sample_system) = true.
Proof.
  split; [|reflexivity].
  apply (mac_lookup_finds_the_printed_address sample_system
           "GigEConfig" "-M" "00-11-22-33-44-55" 0x001122334455);
    reflexivity.
Defined.

(** X8: a text that is not 17 characters long, or that holds a character
    other than an upper-case hexadecimal digit or a colon (a lower-case
    digit, for one), finds no camera: [ListDeviceInfoByMAC] prints its
    heading and that none was found. *)
Theorem mac_lookup_misses_other_text :
  forall (system : System) (text : string),
    Nat.eqb (String.length text) 17 && all_chars is_mac_char text = false ->
    ListDeviceInfoByMAC system text =
      [ Out "---> Listing device info from MAC Address..."; Out "";
        Out ("--> Could not discover camera with MAC address: " ++ text)%string ].
Proof.
  intros system text Hother.
  assert (Hnone : forall c, mac_matches text c = false).
  { intros c.
    unfold mac_matches.
    destruct (GevDeviceMACAddress c) as [v|]; [|reflexivity].
    destruct (String.eqb_spec (GetMACAddress v) text) as [<- | ]; [|reflexivity].
    rewrite FormatRoundTrip.GetMACAddress_length,
      FormatRoundTrip.GetMACAddress_chars in Hother.
    discriminate Hother. }
  rewrite ListDeviceInfoByMAC_blocks.
  destruct (found_blocks_ext (mac_matches text) (fun _ => false)
              (SystemGetCameras system) Hnone) as [-> ->].
  assert (Hempty : forall l : list Camera,
            found_blocks (fun _ => false) l = [] /\
            existsb (fun _ : Camera => false) l = false).
  { induction l as [|c rest [IHb IHe]]; split; try reflexivity; assumption. }
  destruct (Hempty (SystemGetCameras system)) as [-> ->].
  reflexivity.
Qed.

Lemma mac_lookup_misses_other_text_witness :
  Nat.eqb (String.length "00:11:22:aa:bb:cc") 17 &&
    all_chars is_mac_char "00:11:22:aa:bb:cc" = false /\
  ListDeviceInfoByMAC sample_system "00:11:22:aa:bb:cc" =
    [ Out "---> Listing device info from MAC Address..."; Out "";
      Out "--> Could not discover camera with MAC address: 00:11:22:aa:bb:cc" ].
Proof.
  split; [reflexivity|].
  apply (mac_lookup_misses_other_text sample_system "00:11:22:aa:bb:cc").
  reflexivity.
Defined.

(** Each flag test of [main] reads the flag as [flag_of] does. *)
Lemma flag_tests (a : string) :
  is_flag a "-s" "-S" = same_flag (flag_of a) (Some FSerial) /\
  is_flag a "-m" "-M" = same_flag (flag_of a) (Some FMac) /\
  is_flag a "-i" "-I" = same_flag (flag_of a) (Some FIp) /\
  is_flag a "-n" "-N" = same_flag (flag_of a) (Some FMask) /\
  is_flag a "-g" "-G" = same_flag (flag_of a) (Some FGateway).
Proof.
  split_on a ["-a"; "-A"; "-s"; "-S"; "-m"; "-M";
              "-i"; "-I"; "-n"; "-N"; "-g"; "-G"];
    try (repeat split; reflexivity).
  unfold flag_of.
  not_a_flag a.
  repeat split; reflexivity.
Qed.

(** Reading the pairs one after the other keeps, for each option, the
    value that follows the last occurrence of its flag. *)
Lemma read_pairs (pairs : list (string * string)) :
  forall (o : Options) (s m i n g : option string) (d : Options),
    serialNumber o = match s with Some x => x | None => serialNumber d end ->
    macAddress o =
      match m with Some x => GetMACAddressStr x | None => macAddress d end ->
    ipAddress o = match i with Some x => x | None => ipAddress d end ->
    subnetMask o = match n with Some x => x | None => subnetMask d end ->
    gateway o = match g with Some x => x | None => gateway d end ->
    fold_left (fun o p => read_option [fst p; snd p] 0 o) pairs o =
    {| serialNumber :=
         match fold_left (fun found p => if is_flag (fst p) "-s" "-S"
                                         then Some (snd p) else found) pairs s
         with Some x => x | None => serialNumber d end;
       macAddress :=
         match fold_left (fun found p => if is_flag (fst p) "-m" "-M"
                                         then Some (snd p) else found) pairs m
         with Some x => GetMACAddressStr x | None => macAddress d end;
       ipAddress :=
         match fold_left (fun found p => if is_flag (fst p) "-i" "-I"
                                         then Some (snd p) else found) pairs i
         with Some x => x | None => ipAddress d end;
       subnetMask :=
         match fold_left (fun found p => if is_flag (fst p) "-n" "-N"
                                         then Some (snd p) else found) pairs n
         with Some x => x | None => subnetMask d end;
       gateway :=
         match fold_left (fun found p => if is_flag (fst p) "-g" "-G"
                                         then Some (snd p) else found) pairs g
         with Some x => x | None => gateway d end |}.
Proof.
  induction pairs as [|[flag value] rest IH]; intros o s m i n g d Hs Hm Hi Hn Hg.
  - destruct o.
    cbn in *.
    congruence.
  - cbn [fold_left fst snd].
    destruct (flag_tests flag) as (-> & -> & -> & -> & ->).
    rewrite read_option_flag.
    cbn [arg nth Nat.add].
    destruct (flag_of flag) as [[]|]; cbn [same_flag];
      apply IH; cbn [serialNumber macAddress ipAddress subnetMask gateway];
      assumption || reflexivity.
Qed.

Lemma read_options_last (argv : list string) :
  List.length argv = 9%nat ->
  read_options 9 argv 1 no_options =
  {| serialNumber := or_empty (last_value "-s" "-S" (pairs_of (tl argv)));
     macAddress :=
       or_empty (option_map GetMACAddressStr
                   (last_value "-m" "-M" (pairs_of (tl argv))));
     ipAddress := or_empty (last_value "-i" "-I" (pairs_of (tl argv)));
     subnetMask := or_empty (last_value "-n" "-N" (pairs_of (tl argv)));
     gateway := or_empty (last_value "-g" "-G" (pairs_of (tl argv))) |}.
Proof.
  intros Hlen.
  destruct argv as [|a0 [|a1 [|a2 [|a3 [|a4 [|a5 [|a6 [|a7 [|a8 [|a9 rest]]]]]]]]]];
    try discriminate Hlen.
  change (read_options 9 [a0; a1; a2; a3; a4; a5; a6; a7; a8] 1 no_options)
    with (fold_left (fun o p => read_option [fst p; snd p] 0 o)
            [(a1, a2); (a3, a4); (a5, a6); (a7, a8)] no_options).
  rewrite (read_pairs _ no_options None None None None None no_options)
    by reflexivity.
  cbn [tl pairs_of].
  unfold last_value, or_empty.
  cbn [no_options serialNumber macAddress ipAddress subnetMask gateway].
  f_equal.
  destruct (fold_left _ _ None); reflexivity.
Qed.

(** X9: in the nine-word form each option takes the value that follows
    the last occurrence of its flag, in either case, and is empty when the
    flag does not occur; words at a flag position that are no flag are
    passed over with their values. *)
Theorem repeated_flag_last_value_counts :
  forall argv : list string,
    List.length argv = 9%nat ->
    read_options 9 argv 1 no_options =
    {| serialNumber := or_empty (last_value "-s" "-S" (pairs_of (tl argv)));
       macAddress :=
         or_empty (option_map GetMACAddressStr
                     (last_value "-m" "-M" (pairs_of (tl argv))));
       ipAddress := or_empty (last_value "-i" "-I" (pairs_of (tl argv)));
       subnetMask := or_empty (last_value "-n" "-N" (pairs_of (tl argv)));
       gateway := or_empty (last_value "-g" "-G" (pairs_of (tl argv))) |}.
Proof.
  exact read_options_last.
Qed.

Lemma repeated_flag_last_value_counts_witness :
  read_options 9
    ["GigEConfig"; "-i"; "10.0.0.1"; "-x"; "10.0.0.2"; "-I"; "10.0.0.3";
     "-m"; "00-11-22-33-44-55"] 1 no_options =
  {| serialNumber := ""; macAddress := "00:11:22:33:44:55";
     ipAddress := "10.0.0.3"; subnetMask := ""; gateway := "" |}.
Proof.
  apply (repeated_flag_last_value_counts
           ["GigEConfig"; "-i"; "10.0.0.1"; "-x"; "10.0.0.2"; "-I"; "10.0.0.3";
            "-m"; "00-11-22-33-44-55"]).
  reflexivity.
Defined.

(** X10: a command line of nine words is rejected (usage text, [-1])
    exactly when the last [-i], [-n] or [-g] value is the text [0.0.0.0],
    or when the last [-s] value is [0] while the last [-m] value reads
    [00:00:00:00]; every other command line of nine words returns [0]. *)
Theorem nine_words_rejected_on_zero_values :
  forall (system : System) (argv : list string),
    List.length argv = 9%nat ->
    (main system argv = (banner ++ Usage, -1) <->
     or_empty (last_value "-i" "-I" (pairs_of (tl argv))) = "0.0.0.0" \/
     or_empty (last_value "-n" "-N" (pairs_of (tl argv))) = "0.0.0.0" \/
     or_empty (last_value "-g" "-G" (pairs_of (tl argv))) = "0.0.0.0" \/
     (or_empty (last_value "-s" "-S" (pairs_of (tl argv))) = "0" /\
      or_empty (option_map GetMACAddressStr
                  (last_value "-m" "-M" (pairs_of (tl argv)))) = "00:00:00:00")) /\
    (main system argv = (banner ++ Usage, -1) \/
     main system argv = (banner ++ [Out not_supported_message], 0)).
Proof.
  intros system argv Hlen.
  rewrite main_run_command.
  unfold run_command.
  rewrite Hlen, (read_options_last argv Hlen).
  unfold options_valid, zeroSerial, zeroIPAddress, zeroMACAddress.
  cbn [serialNumber macAddress ipAddress subnetMask gateway].
  destruct (String.eqb_spec
              (or_empty (last_value "-s" "-S" (pairs_of (tl argv)))) "0") as [Hs|Hs];
    destruct (String.eqb_spec
                (or_empty (option_map GetMACAddressStr
                             (last_value "-m" "-M" (pairs_of (tl argv)))))
                "00:00:00:00") as [Hm|Hm];
    destruct (String.eqb_spec
                (or_empty (last_value "-i" "-I" (pairs_of (tl argv)))) "0.0.0.0") as [Hi|Hi];
    destruct (String.eqb_spec
                (or_empty (last_value "-n" "-N" (pairs_of (tl argv)))) "0.0.0.0") as [Hn|Hn];
    destruct (String.eqb_spec
                (or_empty (last_value "-g" "-G" (pairs_of (tl argv)))) "0.0.0.0") as [Hg|Hg];
    cbn [negb orb andb fst snd ConfigureCamera app];
    (split; [split; [intros H; try discriminate H; tauto | intros H; try reflexivity; exfalso; tauto]
            | first [left; reflexivity | right; reflexivity]]).
Qed.

Lemma nine_words_rejected_on_zero_values_witness :
  main sample_system
    ["GigEConfig"; "-s"; "17491073"; "-i"; "192.168.1.10";
     "-n"; "255.255.255.0"; "-g"; "0.0.0.0"] = (banner ++ Usage, -1).
Proof.
  apply (nine_words_rejected_on_zero_values sample_system
           ["GigEConfig"; "-s"; "17491073"; "-i"; "192.168.1.10";
            "-n"; "255.255.255.0"; "-g"; "0.0.0.0"] eq_refl).
  right; right; left.
  reflexivity.
Defined.

Lemma QueryInterface_empty (p : Interface) :
  QueryInterface p = [] <-> not_GEV p = true.
Proof.
  unfold QueryInterface.
  destruct (not_GEV p); split; try reflexivity; discriminate.
Qed.

Lemma not_GEV_type (p : Interface) :
  not_GEV p = true <-> exists t, InterfaceType p = Some t /\ t <> "GEV".
Proof.
  unfold not_GEV.
  destruct (InterfaceType p) as [t|].
  - destruct (String.eqb_spec t "GEV") as [-> | Hneq]; cbn.
    + split; [discriminate|].
      intros (t & [= <-] & Hneq).
      now elim Hneq.
    + split; [|reflexivity].
      intros _.
      now exists t.
  - split; [discriminate|].
    intros (t & Ht & _).
    discriminate Ht.
Qed.

(** X11: with no argument, nothing is listed under the heading exactly
    when every interface has a readable type other than GEV; an interface
    whose type cannot be read is listed like a GEV one. *)
Theorem listing_is_empty_without_GEV :
  forall system : System,
    ListAllDeviceInfo system =
      [Out "---> Listing all discoverable cameras..."; Out ""] <->
    forall pInterface,
      In pInterface system ->
      exists t, InterfaceType pInterface = Some t /\ t <> "GEV".
Proof.
  intros system.
  unfold ListAllDeviceInfo.
  assert (Hempty : flat_map QueryInterface system = [] <->
                   forall p, In p system -> not_GEV p = true).
  { induction system as [|q rest IH]; cbn [flat_map].
    - split; [intros _ p [] | reflexivity].
    - split.
      + intros Heq p [<- | Hin].
        * apply app_eq_nil in Heq as [Hq _].
          now apply QueryInterface_empty.
        * apply app_eq_nil in Heq as [_ Hrest].
          now apply IH.
      + intros Hall.
        rewrite (proj2 (QueryInterface_empty q)) by (apply Hall; now left).
        apply IH.
        intros p Hin.
        apply Hall.
        now right. }
  split.
  - intros Heq p Hin.
    apply not_GEV_type.
    injection Heq as Heq.
    now apply Hempty.
  - intros Hall.
    do 2 f_equal.
    apply Hempty.
    intros p Hin.
    apply not_GEV_type.
    now apply Hall.
Qed.

(** X12: on a listed interface the cameras are numbered from 0 in the
    order of its camera list: the camera of index [i] has its information
    under the line [** Device i **], with an empty line after it. *)
Theorem devices_numbered_per_interface :
  forall (pInterface : Interface) (i : nat) (pCamera : Camera),
    not_GEV pInterface = false ->
    nth_error (GetCameras pInterface) i = Some pCamera ->
    exists before after,
      QueryInterface pInterface =
        interface_banner pInterface :: before ++
        Out ("** Device " ++ show_nat i ++ " **")%string ::
        PrintDeviceInfo pCamera ++ Out "" :: after.
Proof.
  intros p i c Hgev Hnth.
  unfold QueryInterface.
  rewrite Hgev.
  destruct (print_devices_block (GetCameras p) 0 i c Hnth)
    as (before & after & Heq).
  exists before, after.
  destruct (GetCameras p) as [|c0 rest]; [destruct i; discriminate Hnth|].
  now rewrite Heq.
Qed.

Lemma devices_numbered_per_interface_witness :
  exists before after,
    QueryInterface
      {| InterfaceType := None; InterfaceDisplayName := Some "eth1";
         AutoForceIP := false;
         GetCameras := [sample_other_camera; sample_gige_camera] |} =
      Out "*** eth1 ***" :: before ++
      Out "** Device 1 **" :: PrintDeviceInfo sample_gige_camera ++
      Out "" :: after.
Proof.
  apply (devices_numbered_per_interface
           {| InterfaceType := None; InterfaceDisplayName := Some "eth1";
              AutoForceIP := false;
              GetCameras := [sample_other_camera; sample_gige_camera] |}
           1 sample_gige_camera);
    reflexivity.
Defined.

(** X13: [-s] looks at the cameras of every interface, whatever its
    type.  Either no camera of any interface has the serial number, and
    [ListDeviceInfoBySerial] prints that none was found; or it prints the
    information of a camera that has it. *)
Theorem serial_lookup_covers_every_interface :
  forall (system : System) (serial : string),
    ((forall pInterface pCamera,
        In pInterface system -> In pCamera (GetCameras pInterface) ->
        DeviceSerialNumber pCamera <> Some serial) /\
     ListDeviceInfoBySerial system serial =
       [ Out "---> Listing device info from serial number..."; Out "";
         Out ("--> Could not discover camera with serial number: " ++
              serial)%string ]) \/
    (exists pInterface pCamera,
        In pInterface system /\ In pCamera (GetCameras pInterface) /\
        DeviceSerialNumber pCamera = Some serial /\
        ListDeviceInfoBySerial system serial =
          [ Out "---> Listing device info from serial number..."; Out "" ] ++
          PrintDeviceInfo pCamera ++ [Out ""]).
Proof.
  intros system serial.
  unfold ListDeviceInfoBySerial, GetBySerial.
  destruct (find _ (SystemGetCameras system)) as [c|] eqn:Hfind.
  - right.
    apply find_some in Hfind as [Hin Htest].
    apply in_flat_map in Hin as (p & Hp & Hc).
    exists p, c.
    repeat split; try assumption.
    destruct (DeviceSerialNumber c) as [s|]; [|discriminate Htest].
    apply String.eqb_eq in Htest.
    now subst.
  - left.
    split; [|reflexivity].
    intros p c Hp Hc Hserial.
    assert (Hin : In c (SystemGetCameras system))
      by (apply in_flat_map; now exists p).
    apply (find_none _ _ Hfind) in Hin.
    rewrite Hserial, String.eqb_refl in Hin.
    discriminate Hin.
Qed.

End GigEConfigBehaviour.

(** ** The device events and the teardown *)

Module DeviceEventsFacts.

Import Format Registry EnumerationEvents DeviceEvents.
Import EnumerationEventsFacts.
#[local] Open Scope list_scope.
#[local] Open Scope nat_scope.

Lemma handlers_for_nth (first i : nat) (l : list InterfaceHandle) :
  nth_error (handlers_for first l) i =
    option_map (fun h => InterfaceEventHandler_on_interface h (first + i))
               (nth_error l i).
Proof.
  revert first i.
  induction l as [|h rest IH]; intros first [|i]; cbn; try reflexivity.
  - now rewrite Nat.add_0_r.
  - rewrite IH.
    now rewrite Nat.add_succ_r.
Qed.

Lemma combine_handlers_nth (first i : nat) (l : list InterfaceHandle)
    (h : InterfaceHandle) :
  nth_error l i = Some h ->
  In (h, InterfaceEventHandler_on_interface h (first + i))
     (combine l (handlers_for first l)).
Proof.
  revert first i.
  induction l as [|x rest IH]; intros first [|i] Hnth; try discriminate Hnth.
  - injection Hnth as ->.
    left.
    now rewrite Nat.add_0_r.
  - right.
    rewrite <- Nat.add_succ_comm.
    now apply IH.
Qed.

(** What either handler of an interface event leaves behind. *)
Lemma interface_event_leaves (handler : string -> M unit) (interfaceID : string)
    (w : World) (ports : list Port) :
  In handler [OnInterfaceArrival; OnInterfaceRemoval] ->
  transport w = Some ports ->
  exists t,
    handler interfaceID w =
    (Done tt,
     {| transport := transport w;
        system :=
          {| epoch := S (epoch (system w));
             current := Some (take_snapshot (S (epoch (system w))) ports);
             interface_subscriptions :=
               combine (issue_handles (S (epoch (system w))) 0 ports)
                 (handlers_for 0 (issue_handles (S (epoch (system w))) 0 ports));
             system_subscriptions :=
               system_subscriptions (system w) ++ [handler_on_system w] |};
        m_interfaceEventHandlerOnSystem := Some (handler_on_system w);
        m_interfaceEventHandlers :=
          handlers_for 0 (issue_handles (S (epoch (system w))) 0 ports);
        trace := t |}).
Proof.
  intros [<- | [<- | []]] Htransport.
  - destruct (OnInterfaceArrival_runs interfaceID w ports Htransport)
      as (shown & _ & Hrun).
    eexists.
    exact Hrun.
  - eexists.
    now apply OnInterfaceRemoval_runs.
Qed.

(** X14: whatever state a handler of an interface event starts in, when
    it returns there is one handler object and one interface-scope
    subscription for each interface of the new list and no other: the
    handler at index [i] of the vector is the one made for the interface of
    index [i], carries the number [i], and is the one registered on that
    interface. *)
Theorem handlers_aligned_with_interfaces :
  forall (handler : string -> M unit) (interfaceID : string) (w : World)
         (ports : list Port),
    In handler [OnInterfaceArrival; OnInterfaceRemoval] ->
    transport w = Some ports ->
    fst (handler interfaceID w) = Done tt /\
    List.length (m_interfaceEventHandlers (snd (handler interfaceID w))) =
      List.length ports /\
    List.length
      (interface_subscriptions (system (snd (handler interfaceID w)))) =
      List.length ports /\
    forall i h,
      nth_error (issued (system (snd (handler interfaceID w)))) i = Some h ->
      nth_error (m_interfaceEventHandlers (snd (handler interfaceID w))) i =
        Some {| m_interface := Some h;
                m_interfaceNum := Z.of_nat i;
                m_registerToSystem := false |} /\
      In (h, {| m_interface := Some h;
                m_interfaceNum := Z.of_nat i;
                m_registerToSystem := false |})
         (interface_subscriptions (system (snd (handler interfaceID w)))).
Proof.
  intros handler interfaceID w ports Hhandler Htransport.
  destruct (interface_event_leaves handler interfaceID w ports Hhandler Htransport)
    as (t & ->).
  cbn [fst snd m_interfaceEventHandlers system interface_subscriptions issued
       current take_snapshot interfaces].
  split; [reflexivity|].
  split; [now rewrite handlers_for_length, RegistryFacts.issue_handles_length|].
  split.
  { rewrite length_combine, handlers_for_length,
      RegistryFacts.issue_handles_length.
    apply Nat.min_id. }
  intros i h Hnth.
  split.
  - rewrite handlers_for_nth, Hnth.
    reflexivity.
  - apply (combine_handlers_nth 0 i _ h Hnth).
Qed.

Lemma handlers_aligned_with_interfaces_witness :
  List.length
    (m_interfaceEventHandlers (snd (OnInterfaceArrival "usb0" sample_world))) =
  List.length sample_ports.
Proof.
  exact (proj1 (proj2
    (handlers_aligned_with_interfaces OnInterfaceArrival "usb0"
       sample_world sample_ports (or_introl eq_refl) eq_refl))).
Defined.

(** X15: when the transport layer cannot be queried, a handler of an
    interface event ends by the exception of the refresh: after its first
    lines the only call it makes is [UpdateInterfaceList], it registers
    nothing, and the registry and the handler objects stay as they were. *)
Theorem interface_event_fails_with_the_refresh :
  forall (handler : string -> M unit) (interfaceID : string) (w : World),
    In handler [OnInterfaceArrival; OnInterfaceRemoval] ->
    transport w = None ->
    fst (handler interfaceID w) = Raised EnumerationError /\
    system (snd (handler interfaceID w)) = system w /\
    m_interfaceEventHandlers (snd (handler interfaceID w)) =
      m_interfaceEventHandlers w /\
    m_interfaceEventHandlerOnSystem (snd (handler interfaceID w)) =
      m_interfaceEventHandlerOnSystem w /\
    exists said,
      calls said = [] /\
      trace (snd (handler interfaceID w)) =
        trace w ++ said ++ [CallUpdateInterfaceList].
Proof.
  intros handler interfaceID w Hhandler Htransport.
  destruct w as [t r hos hs tr].
  cbn [transport] in Htransport.
  subst t.
  destruct Hhandler as [<- | [<- | []]].
  - repeat (split; [reflexivity|]).
    exists [Print "System event handler:";
            Print ("	Interface " ++ interfaceID ++ " has arrived on the system.")%string;
            Print ""].
    split; [reflexivity|].
    unfold OnInterfaceArrival, UpdateInterfaceList, print, bind, emit, library.
    fields.
    reflexivity.
  - repeat (split; [reflexivity|]).
    exists [Print "System event handler:";
            Print ("	Interface " ++ interfaceID ++ " was removed from the system.")%string;
            Print ""].
    split; [reflexivity|].
    unfold OnInterfaceRemoval, UpdateInterfaceList, print, bind, emit, library.
    fields.
    reflexivity.
Qed.

Lemma interface_event_fails_with_the_refresh_witness :
  fst (OnInterfaceRemoval "eth0"
         {| transport := None; system := initial;
            m_interfaceEventHandlerOnSystem := None;
            m_interfaceEventHandlers := []; trace := [] |}) =
  Raised EnumerationError.
Proof.
  exact (proj1
    (interface_event_fails_with_the_refresh OnInterfaceRemoval "eth0"
       {| transport := None; system := initial;
          m_interfaceEventHandlerOnSystem := None;
          m_interfaceEventHandlers := []; trace := [] |}
       (or_intror (or_introl eq_refl)) eq_refl)).
Defined.



Lemma filter_both {A} (f g : A -> bool) (l : list A) :
  filter (fun x => f x && g x) l = filter g (filter f l).
Proof.
  induction l as [|x rest IH]; [reflexivity|].
  cbn [filter].
  destruct (f x); cbn [andb filter]; [destruct (g x)|]; now rewrite IH.
Qed.

Lemma without_cons (b : InterfaceHandle * InterfaceEventHandler)
    (bs subs : list (InterfaceHandle * InterfaceEventHandler)) :
  without (b :: bs) subs =
  without bs (filter (fun p => negb (is_binding (fst b) (snd b) p)) subs).
Proof.
  unfold without.
  rewrite <- filter_both.
  apply filter_ext.
  intros p.
  cbn [existsb].
  apply negb_orb.
Qed.

Lemma is_binding_self (p : InterfaceHandle * InterfaceEventHandler) :
  is_binding (fst p) (snd p) p = true.
Proof.
  unfold is_binding.
  destruct (InterfaceHandle_eq_dec (fst p) (fst p)); [|congruence].
  destruct (InterfaceEventHandler_eq_dec (snd p) (snd p)); [reflexivity | congruence].
Qed.

Lemma without_all (bs subs : list (InterfaceHandle * InterfaceEventHandler)) :
  (forall p, In p subs -> In p bs) -> without bs subs = [].
Proof.
  intros Hsub.
  unfold without.
  induction subs as [|p rest IH]; [reflexivity|].
  cbn [filter].
  assert (Hp : existsb (fun b => is_binding (fst b) (snd b) p) bs = true).
  { apply existsb_exists.
    exists p.
    split; [apply Hsub; now left | apply is_binding_self]. }
  rewrite Hp.
  apply IH.
  intros q Hq.
  apply Hsub.
  now right.
Qed.

(** The loop of [UnregisterInterfaceEvents] when the vector has a
    handler for each interface of the current list. *)
Lemma unregister_interface_loop (interfaceList : list InterfaceHandle) :
  forall (suf pre : list InterfaceHandle)
         (hsuf hpre : list InterfaceEventHandler) (w : World),
    interfaceList = pre ++ suf ->
    m_interfaceEventHandlers w = hpre ++ hsuf ->
    List.length hpre = List.length pre ->
    List.length hsuf = List.length suf ->
    current (system w) <> None ->
    (forall h, In h suf -> origin h = epoch (system w)) ->
    for_range (List.length suf) (List.length pre)
      (unregister_interface interfaceList) w =
    (Done tt,
     {| transport := transport w;
        system :=
          {| epoch := epoch (system w);
             current := current (system w);
             interface_subscriptions :=
               without (combine suf hsuf) (interface_subscriptions (system w));
             system_subscriptions := system_subscriptions (system w) |};
        m_interfaceEventHandlerOnSystem := m_interfaceEventHandlerOnSystem w;
        m_interfaceEventHandlers := m_interfaceEventHandlers w;
        trace := trace w |}).
Proof.
  induction suf as [|h rest IH];
    intros pre hsuf hpre w Hlist Hhandlers Hpre Hsuf Hcur Horigin.
  - destruct w as [t [e c subs ssubs] hos hs tr].
    destruct hsuf; [|discriminate Hsuf].
    assert (Hkeep : forall l : list (InterfaceHandle * InterfaceEventHandler),
              without [] l = l).
    { intros l.
      unfold without.
      rewrite (filter_ext _ (fun _ => true)) by reflexivity.
      induction l as [|p l IHl]; [reflexivity|].
      cbn [filter].
      now f_equal. }
    cbn [List.length for_range combine].
    fields.
    rewrite Hkeep.
    reflexivity.
  - destruct w as [t [e c subs ssubs] hos hs tr].
    destruct hsuf as [|s hrest]; [discriminate Hsuf|].
    fields.
    cbn [List.length for_range].
    unfold bind at 1.
    unfold unregister_interface at 1, bind, GetByIndex, handler_at.
    rewrite (nth_error_at _ _ _ _ Hlist).
    fields.
    assert (Hs : nth_error hs (List.length pre) = Some s).
    { rewrite Hhandlers, <- Hpre.
      apply nth_error_middle. }
    rewrite Hs.
    unfold library, UnregisterSubscription, live.
    fields.
    destruct c as [snap|]; [|now elim Hcur].
    rewrite (Horigin h (or_introl eq_refl)), Nat.eqb_refl.
    fields.
    replace (S (List.length pre)) with (List.length (pre ++ [h]))
      by (rewrite length_app, Nat.add_1_r; reflexivity).
    rewrite (IH (pre ++ [h]) hrest (hpre ++ [s])).
    + fields.
      cbn [combine].
      rewrite without_cons.
      reflexivity.
    + now rewrite <- app_assoc.
    + fields.
      exact Hhandlers.
    + rewrite !length_app, Hpre.
      reflexivity.
    + cbn in Hsuf.
      lia.
    + fields.
      discriminate.
    + fields.
      intros h' Hin.
      apply Horigin.
      now right.
Qed.

(** The same loop when the vector runs out before the interface list. *)
Lemma unregister_interface_runs_out (interfaceList : list InterfaceHandle) :
  forall (suf pre : list InterfaceHandle)
         (hsuf hpre : list InterfaceEventHandler) (w : World),
    interfaceList = pre ++ suf ->
    m_interfaceEventHandlers w = hpre ++ hsuf ->
    List.length hpre = List.length pre ->
    List.length hsuf < List.length suf ->
    current (system w) <> None ->
    (forall h, In h suf -> origin h = epoch (system w)) ->
    fst (for_range (List.length suf) (List.length pre)
           (unregister_interface interfaceList) w) = Undefined.
Proof.
  induction suf as [|h rest IH];
    intros pre hsuf hpre w Hlist Hhandlers Hpre Hsuf Hcur Horigin.
  - cbn in Hsuf.
    lia.
  - destruct w as [t [e c subs ssubs] hos hs tr].
    fields.
    cbn [List.length for_range].
    unfold bind at 1.
    unfold unregister_interface at 1, bind, GetByIndex, handler_at.
    rewrite (nth_error_at _ _ _ _ Hlist).
    fields.
    destruct hsuf as [|s hrest].
    + assert (Hnone : nth_error hs (List.length pre) = None).
      { apply nth_error_None.
        rewrite Hhandlers, app_nil_r, Hpre.
        reflexivity. }
      rewrite Hnone.
      reflexivity.
    + assert (Hs : nth_error hs (List.length pre) = Some s).
      { rewrite Hhandlers, <- Hpre.
        apply nth_error_middle. }
      rewrite Hs.
      unfold library, UnregisterSubscription, live.
      fields.
      destruct c as [snap|]; [|now elim Hcur].
      rewrite (Horigin h (or_introl eq_refl)), Nat.eqb_refl.
      fields.
      replace (S (List.length pre)) with (List.length (pre ++ [h]))
        by (rewrite length_app, Nat.add_1_r; reflexivity).
      apply (IH (pre ++ [h]) hrest (hpre ++ [s])).
      * now rewrite <- app_assoc.
      * fields.
        exact Hhandlers.
      * rewrite !length_app, Hpre.
        reflexivity.
      * cbn in Hsuf.
        lia.
      * fields.
        discriminate.
      * fields.
        intros h' Hin.
        apply Horigin.
        now right.
Qed.

Lemma UnregisterInterfaceEvents_runs (w : World) (snap : TopologySnapshot) :
  current (system w) = Some snap ->
  (forall h, In h (interfaces snap) -> origin h = epoch (system w)) ->
  List.length (m_interfaceEventHandlers w) = List.length (interfaces snap) ->
  UnregisterInterfaceEvents w =
  (Done tt,
   {| transport := transport w;
      system :=
        {| epoch := epoch (system w);
           current := current (system w);
           interface_subscriptions :=
             without (combine (interfaces snap) (m_interfaceEventHandlers w))
                     (interface_subscriptions (system w));
           system_subscriptions := system_subscriptions (system w) |};
      m_interfaceEventHandlerOnSystem := m_interfaceEventHandlerOnSystem w;
      m_interfaceEventHandlers := [];
      trace := trace w ++ [Print "Event handler unregistered from interfaces..."] |}).
Proof.
  intros Hcur Horigin Hlen.
  destruct w as [t [e c subs ssubs] hos hs tr].
  fields.
  subst c.
  unfold UnregisterInterfaceEvents.
  unfold bind at 1.
  unfold library at 1, GetInterfacesAsIs, issued.
  fields.
  unfold bind at 1.
  rewrite (unregister_interface_loop (interfaces snap) (interfaces snap) []
             hs []);
    [| reflexivity | reflexivity | reflexivity | exact Hlen | discriminate
     | exact Horigin].
  unfold bind, print, emit.
  fields.
  reflexivity.
Qed.

(** X17: after a handler of an interface event has run, the teardown of
    [main] ([UnregisterInterfaceEvents], then
    [UnregisterInterfaceEventFromSystem]) returns and leaves no
    interface-scope subscription, no system-scope subscription of the
    handler made for the system, and no handler object. *)
Theorem teardown_after_interface_event :
  forall (handler : string -> M unit) (interfaceID : string) (w : World)
         (ports : list Port),
    In handler [OnInterfaceArrival; OnInterfaceRemoval] ->
    transport w = Some ports ->
    exists w',
      (handler interfaceID ;;
       UnregisterInterfaceEvents ;;
       UnregisterInterfaceEventFromSystem) w = (Done tt, w') /\
      interface_subscriptions (system w') = [] /\
      ~ In (handler_on_system w) (system_subscriptions (system w')) /\
      m_interfaceEventHandlers w' = [] /\
      m_interfaceEventHandlerOnSystem w' = None /\
      issued (system w') = issue_handles (S (epoch (system w))) 0 ports.
Proof.
  intros handler interfaceID w ports Hhandler Htransport.
  destruct (interface_event_leaves handler interfaceID w ports Hhandler Htransport)
    as (t & Hrun).
  unfold bind at 1.
  rewrite Hrun.
  unfold bind at 1.
  rewrite (UnregisterInterfaceEvents_runs _
             (take_snapshot (S (epoch (system w))) ports));
    [| reflexivity
     | intros h Hin; apply RegistryFacts.issue_handles_origin in Hin; exact Hin
     | cbn [m_interfaceEventHandlers take_snapshot interfaces];
       apply handlers_for_length ].
  unfold UnregisterInterfaceEventFromSystem.
  cbn [m_interfaceEventHandlerOnSystem].
  unfold bind, library, UnregisterSystemSubscription, print, emit.
  fields.
  eexists.
  split; [reflexivity|].
  fields.
  split.
  { apply without_all.
    intros p Hp.
    exact Hp. }
  split.
  { intros Hin.
    apply filter_In in Hin as [_ Hkept].
    destruct (InterfaceEventHandler_eq_dec (handler_on_system w)
                (handler_on_system w)); [discriminate Hkept | congruence]. }
  repeat split; reflexivity.
Qed.

Lemma teardown_after_interface_event_witness :
  exists w',
    (OnInterfaceArrival "eth0" ;;
     UnregisterInterfaceEvents ;;
     UnregisterInterfaceEventFromSystem) sample_world = (Done tt, w') /\
    interface_subscriptions (system w') = [] /\
    ~ In (handler_on_system sample_world) (system_subscriptions (system w')) /\
    m_interfaceEventHandlers w' = [] /\
    m_interfaceEventHandlerOnSystem w' = None /\
    issued (system w') = issue_handles 1 0 sample_ports.
Proof.
  exact (teardown_after_interface_event OnInterfaceArrival "eth0" sample_world
           sample_ports (or_introl eq_refl) eq_refl).
Defined.

(** X18: [UnregisterInterfaceEvents] takes one handler from the vector
    for each interface of the current list; when the vector holds fewer
    handlers than the list has interfaces (after no registration at all,
    say), it indexes the vector out of range, which is undefined
    behaviour. *)
Theorem unregister_without_handlers_is_undefined :
  forall (w : World) (snap : TopologySnapshot),
    current (system w) = Some snap ->
    (forall h, In h (interfaces snap) -> origin h = epoch (system w)) ->
    List.length (m_interfaceEventHandlers w) < List.length (interfaces snap) ->
    fst (UnregisterInterfaceEvents w) = Undefined.
Proof.
  intros w snap Hcur Horigin Hshort.
  pose proof (unregister_interface_runs_out (interfaces snap) (interfaces snap)
                [] (m_interfaceEventHandlers w) [] w eq_refl eq_refl eq_refl
                Hshort) as Hloop.
  rewrite Hcur in Hloop.
  specialize (Hloop ltac:(discriminate) Horigin).
  destruct w as [t [e c subs ssubs] hos hs tr].
  fields.
  subst c.
  unfold UnregisterInterfaceEvents.
  unfold bind at 1.
  unfold library at 1, GetInterfacesAsIs, issued.
  fields.
  unfold bind at 1.
  cbn [List.length] in Hloop.
  destruct (for_range _ _ _ _) as [[u | err |] w1]; cbn [fst] in Hloop;
    try discriminate Hloop.
  reflexivity.
Qed.

Lemma unregister_without_handlers_is_undefined_witness :
  fst (UnregisterInterfaceEvents
         {| transport := Some sample_ports;
            system := {| epoch := 1;
                         current := Some (take_snapshot 1 sample_ports);
                         interface_subscriptions := [];
                         system_subscriptions := [] |};
            m_interfaceEventHandlerOnSystem := None;
            m_interfaceEventHandlers := [];
            trace := [] |}) = Undefined.
Proof.
  assert (Horigin : forall h,
            In h (interfaces (take_snapshot 1 sample_ports)) -> origin h = 1).
  { intros h Hin.
    simpl in Hin.
    destruct Hin as [<- | [<- | []]]; reflexivity. }
  assert (Hshort : 0 < 2) by lia.
  exact (unregister_without_handlers_is_undefined
           {| transport := Some sample_ports;
              system := {| epoch := 1;
                           current := Some (take_snapshot 1 sample_ports);
                           interface_subscriptions := [];
                           system_subscriptions := [] |};
              m_interfaceEventHandlerOnSystem := None;
              m_interfaceEventHandlers := [];
              trace := [] |}
           (take_snapshot 1 sample_ports) eq_refl Horigin Hshort).
Defined.

End DeviceEventsFacts.

(** ** The handlers of the C example *)

Module EnumerationEvents_CFacts.

Import Format Registry EnumerationEvents DeviceEvents.
Import EnumerationEvents_C.
#[local] Open Scope list_scope.

Lemma put_int_nonneg (n : Z) : 0 <= n -> put_int n = put_dec n.
Proof.
  intros Hn.
  destruct n as [|p|p]; [reflexivity | reflexivity | lia].
Qed.

Lemma append_inv_tail (a a' t : string) :
  (a ++ t)%string = (a' ++ t)%string -> a = a'.
Proof.
  intros Heq.
  assert (Hlen : String.length a = String.length a').
  { apply (f_equal String.length) in Heq.
    rewrite !FormatRoundTrip.string_length_app in Heq.
    lia. }
  revert a' Heq Hlen.
  induction a as [|c a IH]; intros [|c' a'] Heq Hlen;
    try discriminate Hlen; [reflexivity|].
  cbn in Heq, Hlen.
  injection Heq as -> Heq.
  f_equal.
  apply IH; [assumption | lia].
Qed.

Lemma printed_app (t u : list EnumerationEvents.Event) :
  printed (t ++ u) = printed t ++ printed u.
Proof.
  apply flat_map_app.
Qed.

(** X19: the C handler prints the serial number of the device as an
    [unsigned int], the C++ handler prints all of it: on the same event
    they print the same lines exactly when the serial number is below
    2^32. *)
Theorem interface_handlers_agree_below_2_32 :
  forall (iface : InterfaceHandle) (i : nat) (address serial : Z) (w : World),
    0 <= serial < 2 ^ 64 ->
    (printed (trace (snd (OnDeviceArrival
                            (InterfaceEventHandler_on_interface iface i)
                            serial w))) =
     printed (trace w) ++
     lines (onDeviceArrivalInterface serial
              {| hInterface := address; interfaceNum := Z.of_nat i |})
     <-> serial < 2 ^ 32) /\
    lines (onDeviceArrivalInterface serial
             {| hInterface := address; interfaceNum := Z.of_nat i |}) =
    lines (onDeviceArrivalInterface (serial mod 2 ^ 32)
             {| hInterface := address; interfaceNum := Z.of_nat i |}).
Proof.
  intros iface i address serial w Hserial.
  split.
  - destruct w as [t r hos hs tr].
    unfold OnDeviceArrival, InterfaceEventHandler_on_interface, print, bind, emit.
    cbn [m_registerToSystem m_interfaceNum snd trace with_trace
         onDeviceArrivalInterface lines flat_map app interfaceNum].
    rewrite !printed_app.
    cbn [printed flat_map app].
    rewrite <- !app_assoc.
    cbn [app].
    rewrite put_int_nonneg by lia.
    split.
    + intros Heq.
      apply app_inv_head in Heq.
      injection Heq as Heq.
      apply append_inv_tail in Heq.
      apply FormatRoundTrip.put_dec_inj in Heq.
      * unfold to_uint32 in Heq.
        rewrite Heq.
        apply Z.mod_pos_bound.
        lia.
      * lia.
      * apply Z.mod_pos_bound.
        lia.
    + intros Hsmall.
      unfold to_uint32.
      rewrite Z.mod_small by lia.
      reflexivity.
  - unfold onDeviceArrivalInterface, to_uint32.
    rewrite Z.mod_mod by lia.
    reflexivity.
Qed.

Lemma interface_handlers_agree_below_2_32_witness :
  lines (onDeviceArrivalInterface 4312458369
           {| hInterface := 0; interfaceNum := Z.of_nat 1 |}) =
  lines (onDeviceArrivalInterface (4312458369 mod 2 ^ 32)
           {| hInterface := 0; interfaceNum := Z.of_nat 1 |}).
Proof.
  assert (Hserial : 0 <= 4312458369 < 2 ^ 64) by (split; reflexivity || discriminate).
  exact (proj2 (interface_handlers_agree_below_2_32 sample_handle 1 0
                  4312458369 sample_world Hserial)).
Defined.


End EnumerationEvents_CFacts.
